(** * The OpenAI-compatible provider adapter of text.pollinations.ai

    A shallow embedding of [createOpenAICompatibleClient]
    (text.pollinations.ai/genericOpenAIClient.js) and the properties of
    its request building, dispatch, response shaping and error handling.

    The client is an [async function (messages, options)] wrapped in one
    [try { ... } catch (error) { ... }].  It is embedded as a computation
    in a small monad that threads the observable world (the HTTP requests
    issued so far, the number of times the credential accessor has been
    called) and carries JavaScript exceptions as an explicit outcome. *)

From Stdlib Require Import String Ascii ZArith List Bool Lia DecimalString.
Import ListNotations.
#[local] Set Warnings "-register-all".
Local Open Scope string_scope.
Local Open Scope Z_scope.

(** ** JavaScript values *)

(** Plain objects and arrays are both objects with own properties; an
    array also has a [length], and its elements are the properties named
    by decimal indices (a missing index is a hole).  The property list is
    kept in the order [Object.keys] enumerates it. *)
Inductive obj_kind : Type :=
| Plain
| Array (length : nat).

(** The data fragment of JavaScript the adapter handles: request bodies,
    options and parsed JSON payloads.  Numbers are the integers; the
    adapter does no arithmetic on the numbers it forwards, it copies them
    and tests their truthiness.  A function is a value too: reading a
    mapping under a caller's key can give a built-in function that every
    object inherits.  Such a function is kept by its name; it has no
    enumerable property. *)
Inductive value : Type :=
| VUndefined
| VNull
| VBool (b : bool)
| VNum (n : Z)
| VStr (s : string)
| VObj (kind : obj_kind) (props : list (string * value))
| VFun (name : string).

Definition props : Type := list (string * value).

(** [!!v] *)
Definition truthy (v : value) : bool :=
  match v with
  | VUndefined | VNull => false
  | VBool b => b
  | VNum n => negb (n =? 0)
  | VStr s => negb (s =? "")%string
  | VObj _ _ | VFun _ => true
  end.

(** [v === null] *)
Definition is_null (v : value) : bool :=
  match v with VNull => true | _ => false end.

(** [typeof v === 'object'] (which includes [null]; the type of a
    function is ['function']) *)
Definition typeof_object (v : value) : bool :=
  match v with VNull | VObj _ _ => true | _ => false end.

Module Props.

(** Own-property lookup. *)
Fixpoint lookup (k : string) (ps : props) : option value :=
  match ps with
  | [] => None
  | (k', v) :: rest => if (k' =? k)%string then Some v else lookup k rest
  end.

(** [o[k]] on own properties: [undefined] when [k] is absent. *)
Definition get (ps : props) (k : string) : value :=
  match lookup k ps with Some v => v | None => VUndefined end.

Definition has (ps : props) (k : string) : bool :=
  match lookup k ps with Some _ => true | None => false end.

(** [o[k] = v]: an existing property keeps its place, a new one is
    added last. *)
Fixpoint set (k : string) (v : value) (ps : props) : props :=
  match ps with
  | [] => [(k, v)]
  | (k', v') :: rest =>
      if (k' =? k)%string then (k, v) :: rest else (k', v') :: set k v rest
  end.

(** [delete o[k]] *)
Definition delete (k : string) (ps : props) : props :=
  filter (fun p => negb (fst p =? k)%string) ps.

(** [Object.keys(o)] *)
Definition keys (ps : props) : list string := map fst ps.

(** [{ ...a, ...b }] continued from [a]: later definitions win. *)
Definition assign (a b : props) : props :=
  fold_left (fun acc p => set (fst p) (snd p) acc) b a.

End Props.

(** [v[k]] as a value, for the fixed names the adapter reads ([id],
    [object], [usage], [model], [response_format]) and for the own keys
    it enumerates.  Members inherited from a prototype, and the [length]
    of an array or a string, are not among them; the two reads under a
    key the caller chooses (lines 66 and 72) go through [member]
    below. *)
Definition get_prop (v : value) (k : string) : value :=
  match v with
  | VObj _ ps => Props.get ps k
  | _ => VUndefined
  end.

Definition has_prop (v : value) (k : string) : bool :=
  match v with
  | VObj _ ps => Props.has ps k
  | _ => false
  end.

(** What a plain object inherits from [Object.prototype]: the
    constructor, the built-in methods, and the accessor [__proto__],
    which reads as the prototype itself.  None of the prototype's own
    members is enumerable, so the prototype prints as the empty
    object. *)
Definition builtin (name : string) : string * value := (name, VFun name).

Definition object_prototype : props :=
  [ ("constructor", VFun "Object");
    builtin "__defineGetter__";
    builtin "__defineSetter__";
    builtin "hasOwnProperty";
    builtin "__lookupGetter__";
    builtin "__lookupSetter__";
    builtin "isPrototypeOf";
    builtin "propertyIsEnumerable";
    builtin "toString";
    builtin "valueOf";
    ("__proto__", VObj Plain []);
    builtin "toLocaleString" ].

(** [o[k]] on a plain object [o] for any key [k]: the own property, and
    failing that the member [o] inherits. *)
Definition member (o : props) (k : string) : value :=
  match Props.lookup k o with
  | Some v => v
  | None => Props.get object_prototype k
  end.

(** ** Strings *)

Definition string_of_Z (n : Z) : string := NilZero.string_of_int (Z.to_int n).

Definition string_of_nat (n : nat) : string :=
  NilZero.string_of_uint (Nat.to_uint n).

Definition lower_ascii (c : ascii) : ascii :=
  let n := nat_of_ascii c in
  if ((65 <=? n) && (n <=? 90))%nat then ascii_of_nat (n + 32) else c.

(** [s.toLowerCase()], on the ASCII letters. *)
Fixpoint toLowerCase (s : string) : string :=
  match s with
  | EmptyString => EmptyString
  | String c rest => String (lower_ascii c) (toLowerCase rest)
  end.

(** [s.includes(needle)] *)
Definition includes (needle s : string) : bool :=
  match index 0 needle s with Some _ => true | None => false end.

Fixpoint join (sep : string) (parts : list string) : string :=
  match parts with
  | [] => ""
  | [p] => p
  | p :: rest => p ++ sep ++ join sep rest
  end.

(** ** [JSON.stringify] *)

Definition dquote : ascii := ascii_of_nat 34.
Definition backslash : ascii := ascii_of_nat 92.

Definition hex_digit (n : nat) : ascii :=
  if (n <? 10)%nat then ascii_of_nat (48 + n) else ascii_of_nat (87 + n).

Definition escape_char (c : ascii) : string :=
  let n := nat_of_ascii c in
  if (n =? 34)%nat then String backslash (String dquote "")
  else if (n =? 92)%nat then String backslash (String backslash "")
  else if (n =? 8)%nat then "\b"
  else if (n =? 9)%nat then "\t"
  else if (n =? 10)%nat then "\n"
  else if (n =? 12)%nat then "\f"
  else if (n =? 13)%nat then "\r"
  else if (n <? 32)%nat then
    "\u00" ++ String (hex_digit (n / 16)) (String (hex_digit (n mod 16)) "")
  else String c "".

Fixpoint escape (s : string) : string :=
  match s with
  | EmptyString => EmptyString
  | String c rest => escape_char c ++ escape rest
  end.

Definition quote (s : string) : string :=
  String dquote (escape s ++ String dquote "").

Fixpoint lookup_text (k : string) (l : list (string * option string))
  : option string :=
  match l with
  | [] => None
  | (k', t) :: rest => if (k' =? k)%string then t else lookup_text k rest
  end.

(** The text of a value, [None] where [JSON.stringify] gives
    [undefined] (for [undefined] and for a function).  An object member
    whose value has no text is left out; an array slot without text (a
    hole, [undefined], a function) prints as [null]. *)
Fixpoint stringify (v : value) : option string :=
  match v with
  | VUndefined => None
  | VFun _ => None
  | VNull => Some "null"
  | VBool b => Some (if b then "true" else "false")
  | VNum n => Some (string_of_Z n)
  | VStr s => Some (quote s)
  | VObj kind ps =>
      let texts :=
        (fix go (l : props) : list (string * option string) :=
           match l with
           | [] => []
           | (k, x) :: rest => (k, stringify x) :: go rest
           end) ps in
      match kind with
      | Plain =>
          let members :=
            flat_map (fun kt => match snd kt with
                                | Some t => [quote (fst kt) ++ ":" ++ t]
                                | None => []
                                end) texts in
          Some ("{" ++ join "," members ++ "}")
      | Array n =>
          let slots :=
            map (fun i => match lookup_text (string_of_nat i) texts with
                          | Some t => t
                          | None => "null"
                          end) (seq 0 n) in
          Some ("[" ++ join "," slots ++ "]")
      end
  end.

Definition JSON_stringify (v : value) : value :=
  match stringify v with Some t => VStr t | None => VUndefined end.

(** An array literal [[v0, v1, ...]]. *)
Definition array_of (vs : list value) : value :=
  VObj (Array (List.length vs))
       (combine (map string_of_nat (seq 0 (List.length vs))) vs).


(** [String(v)], as used when a value is a property key or is spliced
    into a template string. *)
Fixpoint to_string (v : value) : string :=
  match v with
  | VUndefined => "undefined"
  | VNull => "null"
  | VBool b => if b then "true" else "false"
  | VNum n => string_of_Z n
  | VStr s => s
  | VObj Plain _ => "[object Object]"
  | VObj (Array n) ps =>
      let texts :=
        (fix go (l : props) : list (string * option string) :=
           match l with
           | [] => []
           | (k, x) :: rest =>
               (k, match x with
                   | VUndefined | VNull => None
                   | _ => Some (to_string x)
                   end) :: go rest
           end) ps in
      join "," (map (fun i => match lookup_text (string_of_nat i) texts with
                              | Some t => t
                              | None => ""
                              end) (seq 0 n))
  | VFun name => "function " ++ name ++ "() { [native code] }"
  end.

(** ** Exceptions *)

Record js_error : Type := { name : string; message : string }.

(** [new Error(msg)] *)
Definition Error (msg : string) : js_error :=
  {| name := "Error"; message := msg |}.

Definition TypeError (msg : string) : js_error :=
  {| name := "TypeError"; message := msg |}.

(** What evaluating an expression gives: a value, or a thrown error. *)
Inductive outcome (A : Type) : Type :=
| Ok (a : A)
| Throw (e : js_error).
Arguments Ok {A} a.
Arguments Throw {A} e.

Definition obind {A B : Type} (c : outcome A) (k : A -> outcome B)
  : outcome B :=
  match c with
  | Ok a => k a
  | Throw e => Throw e
  end.

Notation "'let*' x ':=' c 'in' k" := (obind c (fun x => k))
  (at level 10, x name, c at level 100, k at level 200).

(** [v.k] where [v] may be [null] or [undefined]. *)
Definition read_prop (v : value) (k : string) : outcome value :=
  match v with
  | VUndefined | VNull =>
      Throw (TypeError ("Cannot read properties of " ++ to_string v
                        ++ " (reading '" ++ k ++ "')"))
  | _ => Ok (get_prop v k)
  end.

(** [v.k = x].  The adapter is module code, hence strict: assigning a
    property on a primitive throws.  The names the adapter assigns ([id],
    [object], [usage]) are not array indices.  On a function the
    assignment goes through; the adapter assigns to a parsed payload
    only, which is never a function, and the property is not kept. *)
Definition assign_prop (v : value) (k : string) (x : value) : outcome value :=
  match v with
  | VObj kind ps => Ok (VObj kind (Props.set k x ps))
  | VFun _ => Ok v
  | VUndefined | VNull =>
      Throw (TypeError ("Cannot set properties of " ++ to_string v
                        ++ " (setting '" ++ k ++ "')"))
  | _ =>
      Throw (TypeError ("Cannot create property '" ++ k ++ "' on '"
                        ++ to_string v ++ "'"))
  end.

(** [delete v[k]] *)
Definition delete_prop (k : string) (v : value) : value :=
  match v with
  | VObj kind ps => VObj kind (Props.delete k ps)
  | _ => v
  end.

(** [Object.keys(v)].  The index keys of a primitive string are left
    out: they name one-character strings, which the loops below neither
    match nor can delete. *)
Definition own_keys (v : value) : outcome (list string) :=
  match v with
  | VUndefined | VNull =>
      Throw (TypeError "Cannot convert undefined or null to object")
  | VObj _ ps => Ok (Props.keys ps)
  | _ => Ok []
  end.

(** ** textGenerationUtils.js *)

(** Modelled from the spec: [cleanNullAndUndefined] of
    textGenerationUtils.js, which is not part of the sources at hand.
    Section 4.2: the Null/Undefined Sanitizer returns a structurally
    identical value with every key whose value is [null] or absent
    removed, recursively through nested objects; arrays pass through
    unsanitized at the element level unless elements are themselves
    objects. *)
Fixpoint cleanNullAndUndefined (v : value) : value :=
  match v with
  | VObj Plain ps =>
      VObj Plain
        ((fix go (l : props) : props :=
            match l with
            | [] => []
            | (k, x) :: rest =>
                match x with
                | VUndefined | VNull => go rest
                | _ => (k, cleanNullAndUndefined x) :: go rest
                end
            end) ps)
  | VObj (Array n) ps =>
      VObj (Array n)
        ((fix go (l : props) : props :=
            match l with
            | [] => []
            | (k, x) :: rest => (k, cleanNullAndUndefined x) :: go rest
            end) ps)
  | _ => v
  end.

(** The Normalized Options of section 3, as the adapter reads them. *)
Record normalized_options : Type := {
  model : value;
  temperature : value;
  stream : value;
  seed : value;
  maxTokens : value;
  jsonMode : value;
  tools : value;
  tool_choice : value
}.

(** The other helpers the adapter imports from textGenerationUtils.js.
    Their code is not at hand; the adapter is parameterised by them.
    [normalizeOptions] must not throw (section 4.3) and
    [createErrorResponse] produces a response from any error
    (section 4.9); the validator and the system-message enforcer may
    throw. *)
Record text_generation_utils : Type := {
  validateAndNormalizeMessages : value -> outcome value;
  ensureSystemMessage : value -> normalized_options -> value -> outcome value;
  normalizeOptions : value -> value -> normalized_options;
  createErrorResponse : js_error -> string -> value
}.

(** ** HTTP *)

(** The arguments of [fetch(endpointUrl, { method, headers, body })]. *)
Record request : Type := {
  req_url : value;
  req_method : string;
  req_headers : props;
  req_body : value
}.

(** What the adapter reads of a node-fetch response.  [text] and [json]
    are the results of awaiting [response.text()] and [response.json()];
    [body] names the unread stream. *)
Record response : Type := {
  status : Z;
  statusText : string;
  headers : list (string * string);
  text : outcome string;
  json : outcome value;
  body : nat
}.

(** [response.ok]: the status is in the range 200-299. *)
Definition ok (r : response) : bool := (200 <=? status r) && (status r <=? 299).

(** ** Provider configuration *)

Inductive endpoint_spec : Type :=
| EndpointUrl (url : value)
| EndpointFn (f : value -> outcome value).

(** What a call of [formatResponse] gives when it does not throw: a
    value, or (an [async] formatter) a promise, kept with what it
    settles to. *)
Inductive returned : Type :=
| Value (v : value)
| Promise (settled : outcome value).

(** The destructured [config] of lines 28-39.  [authHeaderValue] is a
    zero-argument accessor whose answer may change from one call to the
    next: it is indexed by the number of calls made before.  A hook that
    is [null] is [None].  The result of [transformRequest] is used as
    the body without being awaited: an [async] transform gives the
    client a promise object, which is a value like any other (it has no
    enumerable property).  The result of [formatResponse] is returned
    to the caller, who awaits it: there a promise counts by what it
    settles to. *)
Record config : Type := {
  endpoint : endpoint_spec;
  authHeaderName : string;
  authHeaderValue : nat -> outcome value;
  modelMapping : props;
  systemPrompts : props;
  defaultOptions : value;
  providerName : string;
  formatResponse : option (value -> string -> Z -> value -> outcome returned);
  additionalHeaders : props;
  transformRequest : option (value -> outcome value)
}.

(** The defaults of the destructuring, for a configuration that gives
    only [endpoint] and [authHeaderValue]. *)
Definition default_config (endpoint : endpoint_spec)
    (authHeaderValue : nat -> outcome value) : config :=
  {| endpoint := endpoint;
     authHeaderName := "Authorization";
     authHeaderValue := authHeaderValue;
     modelMapping := [];
     systemPrompts := [];
     defaultOptions := VObj Plain [];
     providerName := "unknown";
     formatResponse := None;
     additionalHeaders := [];
     transformRequest := None |}.

(** ** The streaming envelope and the replies of the client *)

Module Envelope.
Record t : Type := {
  id : string;
  object : string;
  created : Z;
  model : value;
  stream : bool;
  responseStream : nat;
  providerName : string;
  isSSE : value;
  choices : value;
  error : value
}.
End Envelope.

(** The value the client resolves to, tagged by the [return] statement
    that produced it. *)
Inductive reply : Type :=
| Streaming (envelope : Envelope.t)
| Completion (data : value)
| Formatted (v : value)
| ErrorResponse (v : value).

(** What a [return] statement of the client's body hands out: a reply,
    or the promise a formatter returned.  The body is done with either;
    a promise is settled only after the [try] has been left. *)
Inductive handed : Type :=
| Reply (r : reply)
| Pending (settled : outcome value).

(** ** The monad of the client *)

Record world : Type := {
  fetches : list request;
  auth_calls : nat
}.

Definition M (A : Type) : Type := world -> outcome A * world.

Definition ret {A : Type} (a : A) : M A := fun w => (Ok a, w).

Definition bind {A B : Type} (c : M A) (k : A -> M B) : M B :=
  fun w =>
    match c w with
    | (Ok a, w') => k a w'
    | (Throw e, w') => (Throw e, w')
    end.

Definition throw {A : Type} (e : js_error) : M A := fun w => (Throw e, w).

Definition lift {A : Type} (c : outcome A) : M A := fun w => (c, w).

(** [try { c } catch (error) { handler }] *)
Definition try_catch {A : Type} (c : M A) (handler : js_error -> M A) : M A :=
  fun w =>
    match c w with
    | (Ok a, w') => (Ok a, w')
    | (Throw e, w') => handler e w'
    end.

Notation "x <- c ;; k" := (bind c (fun x => k))
  (at level 100, c at next level, right associativity).

(** ** createOpenAICompatibleClient *)

Section Client.

(** The helpers of textGenerationUtils.js, the network ([fetch]) and
    the provider configuration the client closes over. *)
Variable utils : text_generation_utils.
Variable fetch : request -> outcome response.
Variable cfg : config.

(** [authHeaderValue()] *)
Definition call_authHeaderValue : M value :=
  fun w =>
    (authHeaderValue cfg (auth_calls w),
     {| fetches := fetches w; auth_calls := S (auth_calls w) |}).

(** [await fetch(endpointUrl, init)]: the request is issued, whether
    or not the transport then fails. *)
Definition call_fetch (req : request) : M response :=
  fun w =>
    (fetch req,
     {| fetches := fetches w ++ [req]; auth_calls := auth_calls w |}).

(** [mapping[key] || mapping[Object.keys(mapping)[0]]] (lines 66 and
    72).  The mapping is a plain object: either read finds an own
    property or an inherited member, while [Object.keys] lists the own
    keys only. *)
Definition lookup_or_first (mapping : props) (key : value) : value :=
  let found := member mapping (to_string key) in
  if truthy found then found
  else
    let first :=
      match Props.keys mapping with
      | k :: _ => VStr k
      | [] => VUndefined
      end in
    member mapping (to_string first).

(** Line 66: the provider's model name. *)
Definition resolve_model (normalizedOptions : normalized_options) : value :=
  lookup_or_first (modelMapping cfg) (model normalizedOptions).

(** Line 72. *)
Definition default_system_prompt (normalizedOptions : normalized_options)
  : value :=
  lookup_or_first (systemPrompts cfg) (model normalizedOptions).

(** Lines 76-86: the request body, an object literal of nine keys. *)
Definition build_request_body (modelName messagesWithSystem : value)
    (normalizedOptions : normalized_options) : value :=
  VObj Plain
    [ ("model", modelName);
      ("messages", messagesWithSystem);
      ("temperature", temperature normalizedOptions);
      ("stream", stream normalizedOptions);
      ("seed", seed normalizedOptions);
      ("max_tokens", maxTokens normalizedOptions);
      ("response_format",
        if truthy (jsonMode normalizedOptions)
        then VObj Plain [("type", VStr "json_object")]
        else VUndefined);
      ("tools", tools normalizedOptions);
      ("tool_choice", tool_choice normalizedOptions) ].

(** The loop of lines 104-109 and of lines 113-118:
    [keys.forEach(key => { if (o[key] === null) delete o[key]; })]. *)
Definition remove_null_keys (o : value) (keys : list string) : value :=
  fold_left
    (fun o key => if is_null (get_prop o key) then delete_prop key o else o)
    keys o.

(** Lines 104-125, the second pass over the final body for the
    provider named Cloudflare.  The body is mutated in place; the
    mutated [response_format] stays the body's property. *)
Definition cloudflare_pass (finalRequestBody : value) : outcome value :=
  let* keys := own_keys finalRequestBody in
  let body1 := remove_null_keys finalRequestBody keys in
  let response_format := get_prop body1 "response_format" in
  if truthy response_format && typeof_object response_format then
    let* rkeys := own_keys response_format in
    let response_format' := remove_null_keys response_format rkeys in
    let body2 :=
      match body1 with
      | VObj kind ps =>
          VObj kind (Props.set "response_format" response_format' ps)
      | _ => body1
      end in
    let* rkeys' := own_keys response_format' in
    if (List.length rkeys' =? 0)%nat
    then Ok (delete_prop "response_format" body2)
    else Ok body2
  else Ok body1.

(** Lines 89-126: sanitize, transform, and the provider's second
    pass. *)
Definition final_request_body (requestBody : value) : outcome value :=
  let cleanedRequestBody := cleanNullAndUndefined requestBody in
  let* finalRequestBody :=
    match transformRequest cfg with
    | Some f => f cleanedRequestBody
    | None => Ok cleanedRequestBody
    end in
  if (providerName cfg =? "Cloudflare")%string
  then cloudflare_pass finalRequestBody
  else Ok finalRequestBody.

(** Lines 138-140. *)
Definition resolve_endpoint (modelName : value) : outcome value :=
  match endpoint cfg with
  | EndpointFn f => f modelName
  | EndpointUrl url => Ok url
  end.

(** Lines 143-147:
    [{ [authHeaderName]: auth, "Content-Type": "application/json",
       ...additionalHeaders }]. *)
Definition build_headers (auth : value) : props :=
  Props.assign []
    ([ (authHeaderName cfg, auth);
       ("Content-Type", VStr "application/json") ]
     ++ additionalHeaders cfg)%list.

(** [`${providerName} API error: ${response.status} ${response.statusText}`] *)
Definition api_error_message (r : response) : string :=
  providerName cfg ++ " API error: " ++ string_of_Z (status r) ++ " "
  ++ statusText r.

(** Lines 161 and 177:
    [Object.fromEntries([...response.headers.entries()])['content-type']
       ?.includes('text/event-stream')]. *)
Definition is_sse (r : response) : value :=
  let responseHeaders :=
    Props.assign [] (map (fun h => (fst h, VStr (snd h))) (headers r)) in
  match Props.get responseHeaders "content-type" with
  | VStr s => VBool (includes "text/event-stream" s)
  | _ => VUndefined
  end.

(** Lines 180-191. *)
Definition streaming_envelope (requestId : string) (startTime : Z)
    (modelName : value) (r : response) : Envelope.t :=
  {| Envelope.id := toLowerCase (providerName cfg) ++ "-" ++ requestId;
     Envelope.object := "chat.completion.chunk";
     Envelope.created := startTime / 1000;
     Envelope.model := modelName;
     Envelope.stream := true;
     Envelope.responseStream := body r;
     Envelope.providerName := providerName cfg;
     Envelope.isSSE := is_sse r;
     Envelope.choices :=
       array_of
         [ VObj Plain
             [ ("delta", VObj Plain [("content", VStr "")]);
               ("finish_reason", VNull);
               ("index", VNum 0) ] ];
     Envelope.error :=
       if negb (ok r)
       then VObj Plain [("message", VStr (api_error_message r))]
       else VUndefined |}.

(** Lines 239-255: [if (!data.k) { data.k = x; }] for [id], [object]
    and [usage]. *)
Definition fill_missing (k : string) (x : value) (data : value)
  : outcome value :=
  let* current := read_prop data k in
  if negb (truthy current) then assign_prop data k x else Ok data.

Definition zero_usage : value :=
  VObj Plain
    [ ("prompt_tokens", VNum 0);
      ("completion_tokens", VNum 0);
      ("total_tokens", VNum 0) ].

Definition backfill (requestId : string) (data : value) : outcome value :=
  let* data1 :=
    fill_missing "id"
      (VStr (toLowerCase (providerName cfg) ++ "-" ++ requestId)) data in
  let* data2 := fill_missing "object" (VStr "chat.completion") data1 in
  fill_missing "usage" zero_usage data2.

(** Lines 159-192, the streaming branch. *)
Definition handle_streaming (requestId : string) (startTime : Z)
    (modelName : value) (r : response) : M reply :=
  if negb (ok r) then
    errorText <- lift (text r) ;;
    throw (Error (api_error_message r))
  else
    ret (Streaming (streaming_envelope requestId startTime modelName r)).

(** Lines 194-259, the non-streaming branch.  Two log statements
    evaluate an argument that can throw: line 220 calls
    [JSON.stringify(data).substring] and line 226 reads [data.model].
    Line 234 is [return formatResponse(...)], without [await]: a throw
    of the call itself happens inside the [try]; a promise the call
    returns is handed out as it is. *)
Definition handle_completion (requestId : string) (startTime : Z)
    (modelName : value) (r : response) : M handed :=
  if negb (ok r) then
    errorText <- lift (text r) ;;
    ret (Reply
           (ErrorResponse
              (createErrorResponse utils
                 (Error (api_error_message r ++ " - " ++ errorText))
                 (providerName cfg))))
  else
    data <- lift (json r) ;;
    preview <- lift (read_prop (JSON_stringify data) "substring") ;;
    modelUsed <- lift (read_prop data "model") ;;
    match formatResponse cfg with
    | Some f =>
        result <- lift (f data requestId startTime modelName) ;;
        match result with
        | Value v => ret (Reply (Formatted v))
        | Promise settled => ret (Pending settled)
        end
    | None =>
        data' <- lift (backfill requestId data) ;;
        ret (Reply (Completion data'))
    end.

(** [options = {}], the default of the client's second parameter. *)
Definition options_or_default (options : value) : value :=
  match options with
  | VUndefined => VObj Plain []
  | _ => options
  end.

(** Line 62. *)
Definition normalized (options : value) : normalized_options :=
  normalizeOptions utils (options_or_default options) (defaultOptions cfg).

(** Lines 56-156: the credential check, the request body, the
    endpoint, the headers, and the one call of [fetch]. *)
Definition dispatch (messages options : value) : M response :=
  key <- call_authHeaderValue ;;
  if negb (truthy key) then
    throw (Error (providerName cfg ++ " API key is not set"))
  else
    let normalizedOptions := normalized options in
    let modelName := resolve_model normalizedOptions in
    validatedMessages <- lift (validateAndNormalizeMessages utils messages) ;;
    let defaultSystemPrompt := default_system_prompt normalizedOptions in
    messagesWithSystem <-
      lift (ensureSystemMessage utils validatedMessages normalizedOptions
              defaultSystemPrompt) ;;
    let requestBody :=
      build_request_body modelName messagesWithSystem normalizedOptions in
    finalRequestBody <- lift (final_request_body requestBody) ;;
    endpointUrl <- lift (resolve_endpoint modelName) ;;
    auth <- call_authHeaderValue ;;
    call_fetch {| req_url := endpointUrl;
                  req_method := "POST";
                  req_headers := build_headers auth;
                  req_body := JSON_stringify finalRequestBody |}.

(** Lines 56-259, the body of the [try]. *)
Definition client_body (requestId : string) (startTime : Z)
    (messages options : value) : M handed :=
  r <- dispatch messages options ;;
  let normalizedOptions := normalized options in
  let modelName := resolve_model normalizedOptions in
  if truthy (stream normalizedOptions)
  then
    envelope <- handle_streaming requestId startTime modelName r ;;
    ret (Reply envelope)
  else handle_completion requestId startTime modelName r.

(** What the caller of an [async] function gets of what its body
    handed out: the reply, or what the promise settles to; a promise
    that rejects makes the call reject. *)
Definition settle (h : handed) : M reply :=
  match h with
  | Reply r => ret r
  | Pending (Ok v) => ret (Formatted v)
  | Pending (Throw e) => throw e
  end.

(** Lines 45-271: the client, [async function (messages, options = {})].
    [requestId] and [startTime] are what [generateRequestId()] and
    [Date.now()] gave at lines 46-47.  The [catch] of line 260 covers
    the body of the [try], not the settling of what it returned. *)
Definition client (requestId : string) (startTime : Z)
    (messages options : value) : M reply :=
  h <- try_catch
         (client_body requestId startTime messages options)
         (fun error =>
            ret (Reply
                   (ErrorResponse
                      (createErrorResponse utils error (providerName cfg))))) ;;
  settle h.

End Client.

(** Line 27: [createOpenAICompatibleClient(config)] returns the client
    closed over the configuration. *)
Definition createOpenAICompatibleClient (utils : text_generation_utils)
    (fetch : request -> outcome response) (config : config)
  : string -> Z -> value -> value -> M reply :=
  client utils fetch config.

(** ** Auxiliary definitions for the statements *)

(** [v === null || v === undefined] *)
Definition nullish (v : value) : bool :=
  match v with
  | VUndefined | VNull => true
  | _ => false
  end.

(** The sanitizer on the property list of a plain object. *)
Definition clean_props : props -> props :=
  fix go (l : props) : props :=
    match l with
    | [] => []
    | (k, x) :: rest =>
        match x with
        | VUndefined | VNull => go rest
        | _ => (k, cleanNullAndUndefined x) :: go rest
        end
    end.

(** The loop body of [remove_null_keys] on a property list. *)
Definition remove_null_key (ps : props) (key : string) : props :=
  if is_null (Props.get ps key) then Props.delete key ps else ps.

(** Some field of [v], at any depth, holds [null]. *)
Fixpoint has_null_field (v : value) : bool :=
  match v with
  | VObj _ ps =>
      (fix go (l : props) : bool :=
         match l with
         | [] => false
         | (_, x) :: rest => is_null x || has_null_field x || go rest
         end) ps
  | _ => false
  end.

(** The last binding of [k] in a list of entries spread into an object
    literal. *)
Definition last_binding (k : string) (entries : props) : option value :=
  Props.lookup k (rev entries).

Definition initial_world : world := {| fetches := []; auth_calls := 0 |}.

(** ** Sample providers

    Concrete helpers, configurations and upstream answers on which the
    client can be run.  The helpers stand for textGenerationUtils.js in
    these runs only; the theorems below hold for every choice of
    helpers. *)
Module Sample.

Definition first_defined (a b : value) : value :=
  match a with
  | VUndefined => b
  | _ => a
  end.

Definition utils : text_generation_utils :=
  {| validateAndNormalizeMessages := fun messages =>
       match messages with
       | VObj (Array _) _ => Ok messages
       | _ => Throw (Error "Invalid messages: expected an array")
       end;
     ensureSystemMessage := fun messages _ _ => Ok messages;
     normalizeOptions := fun options defaults =>
       let pick k := first_defined (get_prop options k) (get_prop defaults k) in
       {| model := pick "model";
          temperature := pick "temperature";
          stream := VBool (truthy (pick "stream"));
          seed := pick "seed";
          maxTokens := pick "maxTokens";
          jsonMode := VBool (truthy (pick "jsonMode"));
          tools := pick "tools";
          tool_choice := pick "tool_choice" |};
     createErrorResponse := fun e provider =>
       VObj Plain
         [ ("error",
             VObj Plain [ ("message", VStr (message e));
                          ("provider", VStr provider) ]) ] |}.

Definition bearer (calls : nat) : outcome value := Ok (VStr "Bearer sk-test").

Definition mistral : config :=
  {| endpoint := EndpointUrl (VStr "https://api.mistral.example/v1/chat/completions");
     authHeaderName := "Authorization";
     authHeaderValue := bearer;
     modelMapping := [ ("mistral", VStr "mistral-small-latest");
                       ("mistral-large", VStr "mistral-large-latest") ];
     systemPrompts := [ ("mistral", VStr "You are a helpful assistant.") ];
     defaultOptions := VObj Plain [ ("model", VStr "mistral") ];
     providerName := "Mistral";
     formatResponse := None;
     additionalHeaders := [];
     transformRequest := None |}.

(** A provider whose formatter wraps the payload. *)
Definition formatted : config :=
  {| endpoint := endpoint mistral;
     authHeaderName := "Authorization";
     authHeaderValue := bearer;
     modelMapping := modelMapping mistral;
     systemPrompts := systemPrompts mistral;
     defaultOptions := defaultOptions mistral;
     providerName := "Mistral";
     formatResponse := Some (fun data requestId startTime modelName =>
       Ok (Value (VObj Plain [ ("id", VStr requestId); ("model", modelName);
                               ("payload", data) ])));
     additionalHeaders := [];
     transformRequest := None |}.

(** A provider whose credential accessor is empty from its third
    call on. *)
Definition expiring : config :=
  {| endpoint := endpoint mistral;
     authHeaderName := "Authorization";
     authHeaderValue := fun calls =>
       if (calls <? 2)%nat then Ok (VStr "Bearer sk-test") else Ok (VStr "");
     modelMapping := modelMapping mistral;
     systemPrompts := systemPrompts mistral;
     defaultOptions := defaultOptions mistral;
     providerName := "Mistral";
     formatResponse := None;
     additionalHeaders := [];
     transformRequest := None |}.

(** The provider with the second pass; its endpoint is a function of
    the model name and its transform adds fields of its own. *)
Definition cloudflare : config :=
  {| endpoint := EndpointFn (fun modelName =>
       Ok (VStr ("https://api.cloudflare.example/ai/run/" ++ to_string modelName)));
     authHeaderName := "Authorization";
     authHeaderValue := bearer;
     modelMapping := [ ("llama", VStr "@cf/meta/llama-3.1-8b-instruct") ];
     systemPrompts := [];
     defaultOptions := VObj Plain [ ("model", VStr "llama") ];
     providerName := "Cloudflare";
     formatResponse := None;
     additionalHeaders := [ ("X-Client", VStr "pollinations") ];
     transformRequest := Some (fun body =>
       let* body1 := assign_prop body "user" VNull in
       let* body2 :=
         assign_prop body1 "response_format"
           (VObj Plain [ ("type", VNull); ("json_schema", VNull) ]) in
       assign_prop body2 "stream_options"
         (VObj Plain [ ("include_usage", VNull) ])) |}.

Definition messages : value :=
  array_of [ VObj Plain [ ("role", VStr "user"); ("content", VStr "Hello") ] ].

Definition streaming_options : value := VObj Plain [ ("stream", VBool true) ].
Definition plain_options : value := VObj Plain [].
Definition json_options : value := VObj Plain [ ("jsonMode", VBool true) ].

Definition server_error : response :=
  {| status := 500;
     statusText := "Internal Server Error";
     headers := [ ("content-type", "text/plain") ];
     text := Ok "upstream failed";
     json := Throw {| name := "SyntaxError"; message := "Unexpected token u in JSON" |};
     body := 1%nat |}.

Definition event_stream : response :=
  {| status := 200;
     statusText := "OK";
     headers := [ ("content-type", "text/event-stream; charset=utf-8") ];
     text := Ok "data: {}";
     json := Throw {| name := "SyntaxError"; message := "Unexpected token d in JSON" |};
     body := 2%nat |}.

Definition bare_completion : response :=
  {| status := 200;
     statusText := "OK";
     headers := [ ("content-type", "application/json") ];
     text := Ok "{}";
     json := Ok (VObj Plain [ ("model", VStr "mistral-small-latest");
                              ("choices", array_of []) ]);
     body := 3%nat |}.

Definition answers (r : response) : request -> outcome response :=
  fun _ => Ok r.

(** The body the Cloudflare sample builds for a JSON-mode call. *)
Definition cloudflare_request_body : value :=
  build_request_body (VStr "@cf/meta/llama-3.1-8b-instruct") messages
    (normalizeOptions utils json_options (defaultOptions cloudflare)).

(** The world after one successful call to the expiring sample. *)
Definition after_first_call : world :=
  snd (client utils (answers bare_completion) expiring "req1" 1700000000123
         messages plain_options initial_world).

End Sample.


(** ** Further scenarios

    Upstream answers and networks for the edge cases of the client. *)

(** Two answers that agree on the status line, the headers and the
    body handle; what reading the body would give may differ. *)
Definition same_head (a b : outcome response) : Prop :=
  match a, b with
  | Ok r, Ok r' =>
      status r = status r' /\ statusText r = statusText r'
      /\ headers r = headers r' /\ body r = body r'
  | Throw e, Throw e' => e = e'
  | _, _ => False
  end.

(** [typeof v !== 'object' || v === null]: not an object, not an
    array. *)
Definition is_primitive (v : value) : bool :=
  match v with
  | VObj _ _ => false
  | _ => true
  end.

Module Scenario.

(** A transport that fails before any answer. *)
Definition unreachable : request -> outcome response :=
  fun _ => Throw {| name := "FetchError"; message := "connect ECONNREFUSED" |}.

(** A 200 answer whose body is the JSON text [null]. *)
Definition null_completion : response :=
  {| status := 200;
     statusText := "OK";
     headers := [ ("content-type", "application/json") ];
     text := Ok "null";
     json := Ok VNull;
     body := 4%nat |}.

(** The event stream of the samples, with another body content behind
    the same handle. *)
Definition event_stream' : response :=
  {| status := 200;
     statusText := "OK";
     headers := [ ("content-type", "text/event-stream; charset=utf-8") ];
     text := Throw {| name := "Error"; message := "body used already" |};
     json := Ok (VNum 7);
     body := 2%nat |}.

(** A body as a transform may leave it for the second pass. *)
Definition with_nulls : value :=
  VObj Plain
    [ ("model", VStr "@cf/meta/llama-3.1-8b-instruct");
      ("user", VNull);
      ("response_format",
        VObj Plain [ ("type", VStr "json_object"); ("schema", VNull) ]);
      ("stream", VBool false) ].

(** A mapping with an empty entry. *)
Definition patchy : config :=
  {| endpoint := endpoint Sample.mistral;
     authHeaderName := "Authorization";
     authHeaderValue := Sample.bearer;
     modelMapping := [ ("mistral", VStr "mistral-small-latest");
                       ("mistral-next", VStr "") ];
     systemPrompts := [];
     defaultOptions := VObj Plain [ ("model", VStr "mistral") ];
     providerName := "Mistral";
     formatResponse := None;
     additionalHeaders := [];
     transformRequest := None |}.

(** Options that ask for a model by the name of a member every object
    inherits. *)
Definition inherited_key : value :=
  VObj Plain [ ("model", VStr "constructor") ].

(** A provider whose formatter is [async] and fails: the call of the
    formatter returns a promise, which rejects. *)
Definition deferred : config :=
  {| endpoint := endpoint Sample.mistral;
     authHeaderName := "Authorization";
     authHeaderValue := Sample.bearer;
     modelMapping := modelMapping Sample.mistral;
     systemPrompts := systemPrompts Sample.mistral;
     defaultOptions := defaultOptions Sample.mistral;
     providerName := "Mistral";
     formatResponse := Some (fun data requestId startTime modelName =>
       Ok (Promise (Throw (TypeError "Cannot read properties of undefined"))));
     additionalHeaders := [];
     transformRequest := None |}.

End Scenario.

(** ** Strings, further *)

(** The rest of [s] after the prefix [p], when [s] starts with [p]. *)
Fixpoint strip_prefix (p s : string) : option string :=
  match p with
  | EmptyString => Some s
  | String a p' =>
      match s with
      | EmptyString => None
      | String b s' => if Ascii.eqb a b then strip_prefix p' s' else None
      end
  end.

(** [s.startsWith(p)] *)
Definition startsWith (p s : string) : bool :=
  match strip_prefix p s with Some _ => true | None => false end.

Definition string_of_bytes (l : list nat) : string :=
  fold_right (fun n s => String (ascii_of_nat n) s) EmptyString l.

Fixpoint rev_string (s acc : string) : string :=
  match s with
  | EmptyString => acc
  | String c rest => rev_string rest (String c acc)
  end.

(** The white space and line terminators that [String.prototype.trim]
    strips, as the UTF-8 bytes of each: TAB, LF, VT, FF, CR, SP, U+00A0,
    U+1680, U+2000 to U+200A, U+2028, U+2029, U+202F, U+205F, U+3000
    and U+FEFF. *)
Definition white_space : list string :=
  map string_of_bytes
    ([ [9]; [10]; [11]; [12]; [13]; [32]; [194; 160]; [225; 154; 128] ]
     ++ map (fun n => [226; 128; n]) (seq 128 11)
     ++ [ [226; 128; 168]; [226; 128; 169]; [226; 128; 175];
          [226; 129; 159]; [227; 128; 128]; [239; 187; 191] ])%list%nat.

(** The rest of [s] after one leading element of [seps]. *)
Fixpoint strip_one (seps : list string) (s : string) : option string :=
  match seps with
  | [] => None
  | sep :: more =>
      match strip_prefix sep s with
      | Some rest => Some rest
      | None => strip_one more s
      end
  end.

Fixpoint strip_all (fuel : nat) (seps : list string) (s : string) : string :=
  match fuel with
  | O => s
  | S fuel' =>
      match strip_one seps s with
      | Some rest => strip_all fuel' seps rest
      | None => s
      end
  end.

(** [s.trimStart()]: every strip takes at least one byte, so the
    length of [s] bounds their number. *)
Definition trimStart (s : string) : string :=
  strip_all (String.length s) white_space s.

(** [s.trim()]: the trailing white space is the leading white space of
    the reversed bytes, each sequence reversed. *)
Definition trim (s : string) : string :=
  let t := trimStart s in
  rev_string
    (strip_all (String.length t)
       (map (fun ws => rev_string ws EmptyString) white_space)
       (rev_string t EmptyString))
    EmptyString.

Definition upper_ascii (c : ascii) : ascii :=
  let n := nat_of_ascii c in
  if ((97 <=? n) && (n <=? 122))%nat then ascii_of_nat (n - 32) else c.

(** [s.toUpperCase()], on the ASCII letters. *)
Fixpoint toUpperCase (s : string) : string :=
  match s with
  | EmptyString => EmptyString
  | String c rest => String (upper_ascii c) (toUpperCase rest)
  end.

(** [s.indexOf(c)] for a one-character [c]: [None] is [-1]. *)
Fixpoint indexOf (c : ascii) (s : string) : option nat :=
  match s with
  | EmptyString => None
  | String b rest =>
      if Ascii.eqb b c then Some O else option_map S (indexOf c rest)
  end.

(** [s.substring(n)] *)
Fixpoint substring_from (n : nat) (s : string) : string :=
  match n, s with
  | O, _ => s
  | S n', String _ rest => substring_from n' rest
  | S _, EmptyString => EmptyString
  end.

(** The text before and after the first occurrence of [pat] in [s]. *)
Fixpoint split_at_first (pat s : string) : option (string * string) :=
  match strip_prefix pat s with
  | Some after => Some (EmptyString, after)
  | None =>
      match s with
      | EmptyString => None
      | String c rest =>
          match split_at_first pat rest with
          | Some (before, after) => Some (String c before, after)
          | None => None
          end
      end
  end.

(** The replacement text of [String.prototype.replace] with a string
    pattern: [$$] is a dollar, [$&] the match, [$`] the text before it
    and [$'] the text after it; without capture groups every other [$]
    stands for itself. *)
Fixpoint substitution (repl matched before after : string) : string :=
  match repl with
  | EmptyString => EmptyString
  | String c rest =>
      if Ascii.eqb c "$" then
        match rest with
        | EmptyString => String c EmptyString
        | String d rest' =>
            if Ascii.eqb d "$" then
              String c (substitution rest' matched before after)
            else if Ascii.eqb d "&" then
              matched ++ substitution rest' matched before after
            else if Ascii.eqb d "`" then
              before ++ substitution rest' matched before after
            else if Ascii.eqb d "'" then
              after ++ substitution rest' matched before after
            else String c (substitution rest matched before after)
        end
      else String c (substitution rest matched before after)
  end.

(** [s.replace(pat, repl)] for a string [pat]: the first occurrence
    only. *)
Definition replace (pat repl s : string) : string :=
  match split_at_first pat s with
  | Some (before, after) =>
      before ++ substitution repl pat before after ++ after
  | None => s
  end.

(** [[a-zA-Z0-9]] and [\w]. *)
Definition is_alnum (c : ascii) : bool :=
  let n := nat_of_ascii c in
  ((48 <=? n) && (n <=? 57) || (65 <=? n) && (n <=? 90)
   || (97 <=? n) && (n <=? 122))%nat.

Definition is_word (c : ascii) : bool :=
  is_alnum c || (nat_of_ascii c =? 95)%nat.

(** The longest prefix of [s] whose characters satisfy [p], and the
    rest. *)
Fixpoint span (p : ascii -> bool) (s : string) : string * string :=
  match s with
  | EmptyString => (EmptyString, EmptyString)
  | String c rest =>
      if p c then let (run, after) := span p rest in (String c run, after)
      else (EmptyString, s)
  end.

(** ** ads/adLlmMapper.js *)

Module Ads.

(** An entry of [affiliatesData] (ads/affiliate_prompt.js), by the
    fields the mapper reads.  A text field that is absent or empty is
    the empty string. *)
Record affiliate : Type := {
  id : string;
  name : string;
  nsfw : bool;
  ad_text : string;
  description : string;
  product : string
}.

Definition nl : string := String (ascii_of_nat 10) EmptyString.

Definition quoted (s : string) : string :=
  String dquote (s ++ String dquote EmptyString).

(** [messages.slice(-3)] *)
Definition last3 (messages : list value) : list value :=
  skipn (List.length messages - 3) messages.

(** [.map(m => m.content || "")]; reading [content] of a message that
    is [null] or [undefined] throws. *)
Fixpoint contents (messages : list value) : outcome (list value) :=
  match messages with
  | [] => Ok []
  | m :: rest =>
      let* content := read_prop m "content" in
      let* more := contents rest in
      Ok ((if truthy content then content else VStr EmptyString) :: more)
  end.

(** An element under [Array.prototype.join]. *)
Definition join_item (v : value) : string :=
  if nullish v then EmptyString else to_string v.

(** Lines 18-19. *)
Definition combined_content (content : string) (messages : list value)
  : outcome string :=
  let* mapped := contents (last3 messages) in
  let lastMessages := filter truthy mapped in
  Ok (join nl (map join_item (lastMessages ++ [VStr content])%list)).

(** [[{ role: "user", content: prompt }]] *)
Definition user_prompt (prompt : string) : value :=
  array_of [ VObj Plain [ ("role", VStr "user"); ("content", VStr prompt) ] ].

(** Lines 58 and 215: [completion.choices[0]?.message?.content?.trim()].
    (The first character that [choices[0]] reads of a string has no
    [message], as [undefined] has none.) *)
Definition completion_text (completion : value) : outcome value :=
  let* choices := read_prop completion "choices" in
  let* choice := read_prop choices "0" in
  let message :=
    if nullish choice then VUndefined else get_prop choice "message" in
  let content :=
    if nullish message then VUndefined else get_prop message "content" in
  match content with
  | VUndefined | VNull => Ok VUndefined
  | VStr s => Ok (VStr (trim s))
  | _ => Throw (TypeError "content.trim is not a function")
  end.

(** Line 79: [response.match(/\b([a-zA-Z0-9]+)\b/)], group 1 of the
    first match: the first maximal run of word characters that holds no
    underscore.  [run] is the run being read and whether it is free of
    underscores. *)
Fixpoint match_word (s : string) (run : option (string * bool))
  : option string :=
  match s with
  | EmptyString =>
      match run with
      | Some (word, true) => Some word
      | _ => None
      end
  | String c rest =>
      if is_word c then
        match run with
        | None => match_word rest (Some (String c EmptyString, is_alnum c))
        | Some (word, clean) =>
            match_word rest
              (Some (word ++ String c EmptyString, clean && is_alnum c))
        end
      else
        match run with
        | Some (word, true) => Some word
        | _ => match_word rest None
        end
  end.

(** Line 166. *)
Definition referral_link (affiliateId : string) : string :=
  "https://pollinations.ai/redirect/" ++ affiliateId.

(** Lines 169-187: the ad text before translation. *)
Definition base_ad_text (a : affiliate) (affiliateId : string) : string :=
  let referralLink := referral_link affiliateId in
  if negb (ad_text a =? "")%string then
    replace "{url}" referralLink (ad_text a)
  else if negb (description a =? "")%string then
    description a ++ " [Learn more](" ++ referralLink ++ ")"
  else if negb (product a =? "")%string then
    "Learn more about " ++ product a ++ " [Learn more](" ++ referralLink ++ ")"
  else
    "Learn more about " ++ name a ++ " [Learn more](" ++ referralLink ++ ")".

(** Lines 219-235: the ad text read off the translator's answer. *)
Definition translated_text (response : string) : string :=
  if startsWith "ENGLISH:" (toUpperCase response) then
    trim (substring_from 8 response)
  else
    match indexOf ":" response with
    | Some (S colonBefore) => trim (substring_from (S (S colonBefore)) response)
    | _ => response
    end.

(** Lines 195-211. *)
Definition translation_prompt (sampleText adTextSource : string) : string :=
  nl ++ "You are a professional translator. First, detect the language of the provided text sample."
  ++ nl ++ nl ++ "IMPORTANT INSTRUCTIONS:"
  ++ nl ++ "1. If the detected language is English, respond with "
  ++ quoted "ENGLISH"
  ++ " followed by the original advertisement text unchanged."
  ++ nl ++ "2. If the detected language is NOT English, translate the advertisement to match that language and respond with the language name followed by the translated text."
  ++ nl ++ "3. Return your response in this exact format: "
  ++ quoted "LANGUAGE_NAME: translated_text"
  ++ nl ++ "4. Preserve any markdown links in the format [text](url)"
  ++ nl ++ "5. Do not add any explanations or additional text"
  ++ nl ++ nl ++ "TEXT FOR LANGUAGE DETECTION:"
  ++ nl ++ sampleText
  ++ nl ++ nl ++ "ADVERTISEMENT TO TRANSLATE:"
  ++ nl ++ adTextSource
  ++ nl ++ nl ++ "RESPONSE:".

Section Mapper.

(** The affiliate table and its markdown (ads/affiliate_prompt.js) and
    the text client (generateTextPortkey.js), called with the messages
    alone. *)
Variable affiliatesData : list affiliate.
Variable affiliateMarkdown : string.
Variable generateTextPortkey : value -> outcome value.

(** [affiliatesData.find(a => a.id === x) || null] *)
Definition find_affiliate (x : string) : option affiliate :=
  find (fun a => (id a =? x)%string) affiliatesData.

(** The fallback of lines 62-75, 84-97, 105-118 and 127-139;
    [randomValue] is [Math.floor(Math.random() * 100)]. *)
Definition kofi_or_null (randomValue kofiShowPercentage : Z)
  : option affiliate :=
  if randomValue <? kofiShowPercentage then find_affiliate "kofi" else None.

(** Lines 44-54. *)
Definition affiliate_prompt (combinedContent : string) : string :=
  nl ++ "Based on the following conversation content, determine which affiliate program would be most relevant to suggest."
  ++ nl ++ "Return ONLY the ID of the most relevant affiliate from the list below, or "
  ++ quoted "none" ++ " if none are relevant."
  ++ nl ++ nl ++ "CONVERSATION CONTENT:"
  ++ nl ++ combinedContent
  ++ nl ++ nl ++ "AVAILABLE AFFILIATES:"
  ++ nl ++ affiliateMarkdown
  ++ nl ++ nl ++ "AFFILIATE ID:".

(** Lines 43-122, the body of the [try]. *)
Definition ask_llm (combinedContent : string) (randomValue : Z)
  : outcome (option affiliate) :=
  let* completion :=
    generateTextPortkey (user_prompt (affiliate_prompt combinedContent)) in
  let* response := completion_text completion in
  match response with
  | VStr r =>
      if (r =? "")%string || (toLowerCase r =? "none")%string then
        Ok (kofi_or_null randomValue 10)
      else
        match match_word r None with
        | None => Ok (kofi_or_null randomValue 10)
        | Some affiliateId =>
            match find_affiliate affiliateId with
            | None => Ok (kofi_or_null randomValue 30)
            | Some matchedAffiliate => Ok (Some matchedAffiliate)
            end
        end
  | _ => Ok (kofi_or_null randomValue 10)
  end.

(** Lines 27-34. *)
Definition eligible_affiliates (combinedContent : string) : list affiliate :=
  let lower := toLowerCase combinedContent in
  let shouldExcludeNSFW :=
    negb (includes "nsfw" lower) && negb (includes "adult" lower)
    && negb (includes "sex" lower) in
  if shouldExcludeNSFW
  then filter (fun a => negb (nsfw a)) affiliatesData
  else affiliatesData.

(** Lines 16-141; [None] is [null]. *)
Definition findRelevantAffiliate (content : string) (messages : list value)
    (randomValue : Z) : outcome (option affiliate) :=
  let* combinedContent := combined_content content messages in
  if (combinedContent =? "")%string || (trim combinedContent =? "")%string
  then Ok None
  else if (List.length (eligible_affiliates combinedContent) =? 0)%nat
  then Ok None
  else
    match ask_llm combinedContent randomValue with
    | Ok found => Ok found
    | Throw error => Ok (kofi_or_null randomValue 30)
    end.

(** Lines 190-241: the ad text after the translation step. *)
Definition localized_ad_text (content adTextSource : string) : string :=
  if negb (content =? "")%string && negb (trim content =? "")%string then
    match (let* completion :=
             generateTextPortkey
               (user_prompt (translation_prompt content adTextSource)) in
           completion_text completion) with
    | Ok (VStr response) =>
        if negb (response =? "")%string
        then translated_text response
        else adTextSource
    | Ok _ => adTextSource
    | Throw translationError => adTextSource
    end
  else adTextSource.

(** Lines 150-252; [None] is [null].  Nothing of what the outer [try]
    holds can throw on the data typed here, the translator's failures
    being caught inside. *)
Definition generateAffiliateAd (affiliateId content : string)
  : option string :=
  if (affiliateId =? "")%string then None
  else
    match find_affiliate affiliateId with
    | None => None
    | Some a =>
        let adTextSource :=
          localized_ad_text content (base_ad_text a affiliateId) in
        Some (nl ++ nl ++ "---" ++ nl ++ adTextSource)
    end.

End Mapper.

(** The result of [extractReferralLinkInfo]. *)
Record referral_info : Type := {
  linkCount : nat;
  linkTexts : list string;
  linkTextsString : string;
  topicsOrIds : list string;
  topicsOrIdsString : string;
  affiliateIds : list string
}.

Definition not_char (c : ascii) : ascii -> bool :=
  fun b => negb (Ascii.eqb b c).

(** One match of the expression of line 274 at the start of [s]:
    [\[([^\]]+)\]\((https:\/\/pollinations\.ai\/referral\/([a-zA-Z0-9]+))[^\)]*\)].
    Its greedy runs cannot be shortened to any effect, each being
    followed by a character its class excludes.  The result is group 1,
    group 3 and the text after the match. *)
Definition match_link (s : string) : option (string * string * string) :=
  match s with
  | String c rest =>
      if Ascii.eqb c "[" then
        let (linkText, after_text) := span (not_char "]") rest in
        if (linkText =? "")%string then None
        else
          match strip_prefix "](https://pollinations.ai/referral/" after_text with
          | None => None
          | Some after_url =>
              let (affiliateId, after_id) := span is_alnum after_url in
              if (affiliateId =? "")%string then None
              else
                let (_, after_tail) := span (not_char ")") after_id in
                match after_tail with
                | String _ after_match =>
                    Some (linkText, affiliateId, after_match)
                | EmptyString => None
                end
          end
      else None
  | EmptyString => None
  end.

(** The loop of lines 277-294: the matches from left to right, none
    overlapping; [skip] counts the characters still inside the match
    before. *)
Fixpoint scan_links (s : string) (skip : nat) : list (string * string) :=
  match s with
  | EmptyString => []
  | String _ rest =>
      match skip with
      | S skip' => scan_links rest skip'
      | O =>
          match match_link s with
          | Some (linkText, affiliateId, after_match) =>
              (linkText, affiliateId)
              :: scan_links rest
                   (String.length rest - String.length after_match)
          | None => scan_links rest O
          end
      end
  end.

(** Lines 259-301. *)
Definition extractReferralLinkInfo (content : string) : referral_info :=
  let found :=
    if (content =? "")%string then [] else scan_links content O in
  let ids := map snd found in
  {| linkCount := List.length found;
     linkTexts := map fst found;
     linkTextsString := join "," (map fst found);
     topicsOrIds := ids;
     topicsOrIdsString := join "," ids;
     affiliateIds := filter (fun i => negb (i =? "")%string) ids |}.

End Ads.

(** Every character of [s] satisfies [p]. *)
Fixpoint all_chars (p : ascii -> bool) (s : string) : bool :=
  match s with
  | EmptyString => true
  | String c rest => p c && all_chars p rest
  end.

(** A text is not [p] from its first character on, or is empty. *)
Definition stops (p : ascii -> bool) (s : string) : bool :=
  match s with
  | EmptyString => true
  | String c _ => negb (p c)
  end.

(** A sample affiliate table and sample answers of the text client. *)
Module AdSample.

Definition nordvpn : Ads.affiliate :=
  {| Ads.id := "nordvpn";
     Ads.name := "NordVPN";
     Ads.nsfw := false;
     Ads.ad_text := "";
     Ads.description := "Browse privately with NordVPN.";
     Ads.product := "VPN" |}.

Definition lovense : Ads.affiliate :=
  {| Ads.id := "lovense";
     Ads.name := "Lovense";
     Ads.nsfw := true;
     Ads.ad_text := "";
     Ads.description := "";
     Ads.product := "Interactive toys" |}.

Definition kofi : Ads.affiliate :=
  {| Ads.id := "kofi";
     Ads.name := "Ko-fi";
     Ads.nsfw := false;
     Ads.ad_text := "Powered by Pollinations.AI free text APIs. [Support our mission]({url}) to keep AI accessible for everyone.";
     Ads.description := "Support Pollinations on Ko-fi.";
     Ads.product := "" |}.

Definition table : list Ads.affiliate := [nordvpn; lovense; kofi].

(** An affiliate whose description brings a referral link of its
    own. *)
Definition partner : Ads.affiliate :=
  {| Ads.id := "partner";
     Ads.name := "Partner";
     Ads.nsfw := false;
     Ads.ad_text := "";
     Ads.description :=
       "See [our partner](https://pollinations.ai/referral/partner).";
     Ads.product := "" |}.

Definition markdown : string :=
  "| nordvpn | NordVPN | VPN |" ++ Ads.nl ++ "| lovense | Lovense | toys |"
  ++ Ads.nl ++ "| kofi | Ko-fi | donation |".

(** A completion whose first choice says [answer]. *)
Definition completion (answer : string) : value :=
  VObj Plain
    [ ("id", VStr "chatcmpl-1");
      ("choices",
        array_of
          [ VObj Plain
              [ ("index", VNum 0);
                ("message",
                  VObj Plain [ ("role", VStr "assistant");
                               ("content", VStr answer) ]) ] ]) ].

Definition llm_says (answer : string) : value -> outcome value :=
  fun _ => Ok (completion answer).

Definition llm_down : value -> outcome value :=
  fun _ => Throw (Error "socket hang up").

(** An error response in place of a completion: it has no [choices]. *)
Definition llm_error_response : value -> outcome value :=
  fun _ =>
    Ok (VObj Plain
          [ ("error", VObj Plain [ ("message", VStr "Portkey API error: 500") ]) ]).

Definition conversation : list value :=
  [ VObj Plain [ ("role", VStr "user");
                 ("content", VStr "How do I stay safe on public wifi?") ] ].

End AdSample.

(** * Properties *)

(** ** Property lists *)

Module PropsFacts.

Lemma lookup_set (k k' : string) (v : value) (ps : props) :
  Props.lookup k' (Props.set k v ps)
  = if (k =? k')%string then Some v else Props.lookup k' ps.
Proof.
  induction ps as [|[k0 v0] rest IH]; simpl.
  - reflexivity.
  - destruct (k0 =? k)%string eqn:E0; simpl.
    + apply String.eqb_eq in E0; subst k0.
      destruct (k =? k')%string; reflexivity.
    + destruct (k0 =? k')%string eqn:E1.
      * apply String.eqb_eq in E1; subst k0.
        rewrite String.eqb_sym in E0. rewrite E0. reflexivity.
      * exact IH.
Qed.

Lemma get_set (k k' : string) (v : value) (ps : props) :
  Props.get (Props.set k v ps) k'
  = if (k =? k')%string then v else Props.get ps k'.
Proof.
  unfold Props.get. rewrite lookup_set.
  destruct (k =? k')%string; reflexivity.
Qed.

Lemma lookup_delete (k k' : string) (ps : props) :
  Props.lookup k' (Props.delete k ps)
  = if (k =? k')%string then None else Props.lookup k' ps.
Proof.
  unfold Props.delete.
  induction ps as [|[k0 v0] rest IH]; simpl.
  - destruct (k =? k')%string; reflexivity.
  - destruct (k0 =? k)%string eqn:E0; simpl.
    + apply String.eqb_eq in E0; subst k0.
      rewrite IH. destruct (k =? k')%string; reflexivity.
    + destruct (k0 =? k')%string eqn:E1.
      * apply String.eqb_eq in E1; subst k0.
        rewrite String.eqb_sym in E0. rewrite E0. reflexivity.
      * exact IH.
Qed.

Lemma get_delete (k k' : string) (ps : props) :
  Props.get (Props.delete k ps) k'
  = if (k =? k')%string then VUndefined else Props.get ps k'.
Proof.
  unfold Props.get. rewrite lookup_delete.
  destruct (k =? k')%string; reflexivity.
Qed.

Lemma has_delete_same (k : string) (ps : props) :
  Props.has (Props.delete k ps) k = false.
Proof.
  unfold Props.has. rewrite lookup_delete, String.eqb_refl. reflexivity.
Qed.

Lemma lookup_in_keys (k : string) (ps : props) (v : value) :
  Props.lookup k ps = Some v -> In k (Props.keys ps).
Proof.
  induction ps as [|[k0 v0] rest IH]; simpl; [discriminate|].
  destruct (k0 =? k)%string eqn:E0.
  - apply String.eqb_eq in E0. intros _. left. exact E0.
  - intros H. right. exact (IH H).
Qed.

(** One round of the null-removing loop leaves every other reading
    as it was, and never makes a reading [null]. *)
Lemma get_remove_null_key (ps : props) (key k : string) :
  Props.get (remove_null_key ps key) k
  = if (key =? k)%string && is_null (Props.get ps k)
    then VUndefined else Props.get ps k.
Proof.
  unfold remove_null_key.
  destruct (key =? k)%string eqn:E; simpl.
  - apply String.eqb_eq in E; subst key.
    destruct (is_null (Props.get ps k)) eqn:N.
    + rewrite get_delete, String.eqb_refl. reflexivity.
    + reflexivity.
  - destruct (is_null (Props.get ps key)).
    + rewrite get_delete, E. reflexivity.
    + reflexivity.
Qed.

(** The whole loop over a list of keys. *)
Lemma get_fold_remove_null (keys : list string) (ps : props) (k : string) :
  Props.get (fold_left remove_null_key keys ps) k
  = if existsb (String.eqb k) keys && is_null (Props.get ps k)
    then VUndefined else Props.get ps k.
Proof.
  revert ps. induction keys as [|key keys IH]; intros ps; simpl.
  - reflexivity.
  - rewrite IH, get_remove_null_key.
    rewrite (String.eqb_sym k key).
    destruct (key =? k)%string eqn:E; simpl.
    + destruct (is_null (Props.get ps k)) eqn:N; simpl.
      * destruct (existsb (String.eqb k) keys); reflexivity.
      * rewrite N, andb_false_r. reflexivity.
    + reflexivity.
Qed.

Lemma existsb_keys (k : string) (ps : props) (v : value) :
  Props.lookup k ps = Some v -> existsb (String.eqb k) (Props.keys ps) = true.
Proof.
  intros H. apply existsb_exists. exists k. split.
  - exact (lookup_in_keys _ _ _ H).
  - apply String.eqb_refl.
Qed.

(** After the loop over its own keys, an object reads [null] nowhere,
    and reads as before wherever it did not read [null]. *)
Lemma get_strip_own (ps : props) (k : string) :
  Props.get (fold_left remove_null_key (Props.keys ps) ps) k
  = if is_null (Props.get ps k) then VUndefined else Props.get ps k.
Proof.
  rewrite get_fold_remove_null.
  destruct (is_null (Props.get ps k)) eqn:N.
  - unfold Props.get in N.
    destruct (Props.lookup k ps) as [v|] eqn:L; [|discriminate].
    rewrite (existsb_keys _ _ _ L). reflexivity.
  - rewrite andb_false_r. reflexivity.
Qed.

Lemma has_fold_remove_null (keys : list string) (ps : props) (k : string) :
  Props.has ps k = false ->
  Props.has (fold_left remove_null_key keys ps) k = false.
Proof.
  revert ps. induction keys as [|key keys IH]; intros ps H; simpl.
  - exact H.
  - apply IH. unfold remove_null_key.
    destruct (is_null (Props.get ps key)); [|exact H].
    unfold Props.has in *. rewrite lookup_delete.
    destruct (key =? k)%string; [reflexivity | exact H].
Qed.

(** Spreading entries into an object literal: the last binding of a
    key wins, and keys not bound keep their earlier value. *)
Lemma lookup_assign (a b : props) (k : string) :
  Props.lookup k (Props.assign a b)
  = match last_binding k b with
    | Some v => Some v
    | None => Props.lookup k a
    end.
Proof.
  unfold Props.assign, last_binding.
  revert a. induction b as [|[k0 v0] rest IH]; intros a; simpl.
  - reflexivity.
  - rewrite IH, lookup_set.
    assert (Happ : forall l,
      Props.lookup k (l ++ [(k0, v0)])%list
      = match Props.lookup k l with
        | Some v => Some v
        | None => if (k0 =? k)%string then Some v0 else None
        end).
    { induction l as [|[k1 v1] l IHl]; simpl.
      - reflexivity.
      - destruct (k1 =? k)%string; [reflexivity | exact IHl]. }
    rewrite Happ.
    destruct (Props.lookup k (rev rest)); [reflexivity|].
    destruct (k0 =? k)%string; reflexivity.
Qed.

(** The sanitizer reads, under a key of a plain object, the sanitized
    first binding of that key which is neither [null] nor
    [undefined]. *)
Lemma lookup_clean_props (ps : props) (k : string) :
  Props.lookup k (clean_props ps)
  = option_map (fun p => cleanNullAndUndefined (snd p))
      (find (fun p => (fst p =? k)%string && negb (nullish (snd p))) ps).
Proof.
  induction ps as [|[k0 v0] rest IH]; simpl.
  - reflexivity.
  - destruct v0; simpl; rewrite ?andb_false_r, ?andb_true_r;
      try exact IH;
      destruct (k0 =? k)%string; simpl; try reflexivity; exact IH.
Qed.

Lemma get_of_has_false (ps : props) (k : string) :
  Props.has ps k = false -> Props.get ps k = VUndefined.
Proof.
  unfold Props.has, Props.get.
  destruct (Props.lookup k ps); [discriminate | reflexivity].
Qed.

End PropsFacts.

(** ** The monad *)

Lemma bind_ok {A B : Type} (c : M A) (k : A -> M B) (w w' : world) (a : A) :
  c w = (Ok a, w') -> bind c k w = k a w'.
Proof. intros H. unfold bind. rewrite H. reflexivity. Qed.

Lemma bind_throw {A B : Type} (c : M A) (k : A -> M B) (w w' : world)
    (e : js_error) :
  c w = (Throw e, w') -> bind c k w = (Throw e, w').
Proof. intros H. unfold bind. rewrite H. reflexivity. Qed.

(** ** The client *)

Section ClientFacts.

Variable utils : text_generation_utils.
Variable fetch : request -> outcome response.
Variable cfg : config.

(** The outer [catch] turns every throw of the body into a returned
    error response and passes every reply through; a promise the body
    handed out settles past the [catch]. *)
Lemma client_catches requestId startTime messages options w :
  client utils fetch cfg requestId startTime messages options w
  = match client_body utils fetch cfg requestId startTime messages options w
    with
    | (Ok (Reply r), w') => (Ok r, w')
    | (Ok (Pending (Ok v)), w') => (Ok (Formatted v), w')
    | (Ok (Pending (Throw e)), w') => (Throw e, w')
    | (Throw e, w') =>
        (Ok (ErrorResponse (createErrorResponse utils e (providerName cfg))),
         w')
    end.
Proof.
  unfold client, bind, try_catch.
  destruct (client_body _ _ _ _ _ _ _ _) as [[[r|[v|e]]|e] w']; reflexivity.
Qed.

(** The streaming branch hands out a reply or throws; it never hands
    out a promise. *)
Lemma streaming_body requestId startTime messages options w r w1 :
  dispatch utils fetch cfg messages options w = (Ok r, w1) ->
  truthy (stream (normalized utils cfg options)) = true ->
  client_body utils fetch cfg requestId startTime messages options w
  = match handle_streaming cfg requestId startTime
            (resolve_model cfg (normalized utils cfg options)) r w1 with
    | (Ok reply, w') => (Ok (Reply reply), w')
    | (Throw e, w') => (Throw e, w')
    end.
Proof.
  intros Hd Hs. unfold client_body. rewrite (bind_ok _ _ _ _ _ Hd).
  cbv zeta. rewrite Hs. unfold bind, ret.
  destruct (handle_streaming _ _ _ _ _ _) as [[reply|e] w']; reflexivity.
Qed.

Lemma completion_body requestId startTime messages options w r w1 :
  dispatch utils fetch cfg messages options w = (Ok r, w1) ->
  truthy (stream (normalized utils cfg options)) = false ->
  client_body utils fetch cfg requestId startTime messages options w
  = handle_completion utils cfg requestId startTime
      (resolve_model cfg (normalized utils cfg options)) r w1.
Proof.
  intros Hd Hs. unfold client_body. rewrite (bind_ok _ _ _ _ _ Hd).
  cbv zeta. rewrite Hs. reflexivity.
Qed.

Lemma dispatch_failure_body requestId startTime messages options w e w1 :
  dispatch utils fetch cfg messages options w = (Throw e, w1) ->
  client_body utils fetch cfg requestId startTime messages options w
  = (Throw e, w1).
Proof.
  intros Hd. unfold client_body. apply bind_throw. exact Hd.
Qed.

(** What the non-streaming branch hands out of a 2xx answer with a
    parsed payload: the two log statements, then the formatter or the
    backfill. *)
Lemma handle_parsed requestId startTime modelName r w data :
  ok r = true ->
  json r = Ok data ->
  handle_completion utils cfg requestId startTime modelName r w
  = match read_prop (JSON_stringify data) "substring" with
    | Throw e => (Throw e, w)
    | Ok _ =>
        match read_prop data "model" with
        | Throw e => (Throw e, w)
        | Ok _ =>
            match formatResponse cfg with
            | Some f =>
                match f data requestId startTime modelName with
                | Ok (Value v) => (Ok (Reply (Formatted v)), w)
                | Ok (Promise settled) => (Ok (Pending settled), w)
                | Throw e => (Throw e, w)
                end
            | None =>
                match backfill cfg requestId data with
                | Ok data' => (Ok (Reply (Completion data')), w)
                | Throw e => (Throw e, w)
                end
            end
        end
    end.
Proof.
  intros Hok Hjson. unfold handle_completion. rewrite Hok, Hjson.
  unfold bind, lift, ret. cbn [negb].
  destruct (read_prop (JSON_stringify data) "substring"); [|reflexivity].
  destruct (read_prop data "model"); [|reflexivity].
  destruct (formatResponse cfg) as [f|].
  - destruct (f data requestId startTime modelName) as [[v|settled]|e];
      reflexivity.
  - destruct (backfill cfg requestId data); reflexivity.
Qed.


(** The two response handlers issue no request and call the
    credential accessor no more. *)
Lemma handle_streaming_keeps_world requestId startTime modelName r w :
  snd (handle_streaming cfg requestId startTime modelName r w) = w.
Proof.
  unfold handle_streaming, bind, lift, throw, ret.
  destruct (negb (ok r)); [destruct (text r)|]; reflexivity.
Qed.

Lemma handle_completion_keeps_world requestId startTime modelName r w :
  snd (handle_completion utils cfg requestId startTime modelName r w) = w.
Proof.
  unfold handle_completion, bind, lift, throw, ret.
  destruct (negb (ok r)); [destruct (text r); reflexivity|].
  destruct (json r) as [data|e]; [|reflexivity].
  destruct (read_prop (JSON_stringify data) "substring"); [|reflexivity].
  destruct (read_prop data "model"); [|reflexivity].
  destruct (formatResponse cfg) as [f|].
  - destruct (f data requestId startTime _) as [[v|settled]|e]; reflexivity.
  - destruct (backfill cfg requestId data); reflexivity.
Qed.

(** What [dispatch] does, step by step: it stops before [fetch]
    without a request, or it issues exactly the request built from the
    resolved model, the final body, the endpoint and the headers. *)
Lemma dispatch_cases messages options w :
  let normalizedOptions := normalized utils cfg options in
  let modelName := resolve_model cfg normalizedOptions in
  (exists e calls,
      dispatch utils fetch cfg messages options w
      = (Throw e, {| fetches := fetches w; auth_calls := calls |}))
  \/
  (exists key validated withSystem final url auth,
      authHeaderValue cfg (auth_calls w) = Ok key /\
      truthy key = true /\
      validateAndNormalizeMessages utils messages = Ok validated /\
      ensureSystemMessage utils validated normalizedOptions
        (default_system_prompt cfg normalizedOptions) = Ok withSystem /\
      final_request_body cfg
        (build_request_body modelName withSystem normalizedOptions)
      = Ok final /\
      resolve_endpoint cfg modelName = Ok url /\
      authHeaderValue cfg (S (auth_calls w)) = Ok auth /\
      let req := {| req_url := url;
                    req_method := "POST";
                    req_headers := build_headers cfg auth;
                    req_body := JSON_stringify final |} in
      dispatch utils fetch cfg messages options w
      = (fetch req,
         {| fetches := fetches w ++ [req];
            auth_calls := S (S (auth_calls w)) |})).
Proof.
  intros normalizedOptions modelName.
  unfold dispatch, bind, call_authHeaderValue, call_fetch, lift, throw; simpl.
  destruct (authHeaderValue cfg (auth_calls w)) as [key|e] eqn:Hkey;
    [|left; eauto].
  destruct (truthy key) eqn:Htruthy; simpl; [|left; eauto].
  destruct (validateAndNormalizeMessages utils messages)
    as [validated|e] eqn:Hval; [|left; eauto].
  fold normalizedOptions. fold modelName.
  destruct (ensureSystemMessage utils validated normalizedOptions _)
    as [withSystem|e] eqn:Hens; [|left; eauto].
  destruct (final_request_body cfg _) as [final|e] eqn:Hfinal;
    [|left; eauto].
  destruct (resolve_endpoint cfg modelName) as [url|e] eqn:Hurl;
    [|left; eauto].
  destruct (authHeaderValue cfg (S (auth_calls w))) as [auth|e] eqn:Hauth;
    [|left; eauto].
  right. exists key, validated, withSystem, final, url, auth.
  repeat split; auto.
Qed.

End ClientFacts.


(** ** Error handling: thrown and returned errors *)

Section ErrorHandling.

Variable utils : text_generation_utils.
Variable fetch : request -> outcome response.
Variable cfg : config.

(** On the streaming path a non-2xx answer makes the body of the [try]
    throw (line 170); the outer [catch] (line 269) then returns the
    error response built from that very error. *)
Lemma streaming_preflight_failure_is_caught
    requestId startTime messages options w r w' :
  dispatch utils fetch cfg messages options w = (Ok r, w') ->
  truthy (stream (normalized utils cfg options)) = true ->
  ok r = false ->
  client_body utils fetch cfg requestId startTime messages options w
  = match text r with
    | Ok _ => (Throw (Error (api_error_message cfg r)), w')
    | Throw e => (Throw e, w')
    end
  /\
  client utils fetch cfg requestId startTime messages options w
  = (Ok (ErrorResponse
           (createErrorResponse utils
              match text r with
              | Ok _ => Error (api_error_message cfg r)
              | Throw e => e
              end
              (providerName cfg))),
     w').
Proof.
  intros Hd Hs Hok.
  assert (Hbody :
    client_body utils fetch cfg requestId startTime messages options w
    = match text r with
      | Ok _ => (Throw (Error (api_error_message cfg r)), w')
      | Throw e => (Throw e, w')
      end).
  { unfold client_body. rewrite (bind_ok _ _ _ _ _ Hd). simpl.
    rewrite Hs. unfold handle_streaming. rewrite Hok. simpl.
    unfold bind, lift, throw. destruct (text r); reflexivity. }
  split; [exact Hbody|].
  rewrite client_catches, Hbody. destruct (text r); reflexivity.
Qed.


(** C3: when the credential accessor answers the check of line 57 with
    a falsy value, the client resolves to the error response of the
    error [`${providerName} API key is not set`], and no request has
    been issued: the list of fetches is as it was before the call. *)
Theorem missing_credential_fails_before_dispatch
    requestId startTime messages options w key :
  authHeaderValue cfg (auth_calls w) = Ok key ->
  truthy key = false ->
  client utils fetch cfg requestId startTime messages options w
  = (Ok (ErrorResponse
           (createErrorResponse utils
              (Error (providerName cfg ++ " API key is not set"))
              (providerName cfg))),
     {| fetches := fetches w; auth_calls := S (auth_calls w) |}).
Proof.
  intros Hkey Hfalsy.
  rewrite client_catches.
  unfold client_body, dispatch, bind, call_authHeaderValue, throw.
  rewrite Hkey, Hfalsy. reflexivity.
Qed.

(** C10: every streaming envelope the client returns has its [error]
    field [undefined]: the envelope is built only after the status
    check of line 164 has passed, so the condition of line 190 is
    false. *)
Theorem returned_envelope_has_no_error
    requestId startTime messages options w envelope w' :
  client utils fetch cfg requestId startTime messages options w
  = (Ok (Streaming envelope), w') ->
  Envelope.error envelope = VUndefined.
Proof.
  rewrite client_catches. unfold client_body, bind.
  destruct (dispatch utils fetch cfg messages options w) as [[r|e] w1];
    [|discriminate].
  destruct (truthy (stream (normalized utils cfg options))).
  - unfold handle_streaming, bind, lift, throw, ret.
    destruct (negb (ok r)) eqn:Hok.
    + destruct (text r); discriminate.
    + intros H. inversion H; subst. simpl. rewrite Hok. reflexivity.
  - unfold handle_completion, bind, lift, throw, ret.
    destruct (negb (ok r)); [destruct (text r); discriminate|].
    destruct (json r) as [data|e]; [|discriminate].
    destruct (read_prop (JSON_stringify data) "substring"); [|discriminate].
    destruct (read_prop data "model"); [|discriminate].
    destruct (formatResponse cfg) as [f|].
    + destruct (f data requestId startTime _) as [[v|[v|e]]|e]; discriminate.
    + destruct (backfill cfg requestId data); discriminate.
Qed.

End ErrorHandling.

(** C1: a streaming call answered with status 500.  The specification
    has the client throw; the client instead resolves to the error
    response of the pre-flight error, the throw of line 170 being caught
    at line 260. *)
Theorem streaming_preflight_500_is_returned_not_thrown :
  truthy (stream (normalized Sample.utils Sample.mistral Sample.streaming_options))
  = true
  /\ ok Sample.server_error = false
  /\ fst (client Sample.utils (Sample.answers Sample.server_error)
            Sample.mistral "req1" 1700000000123
            Sample.messages Sample.streaming_options initial_world)
     = Ok (ErrorResponse
             (createErrorResponse Sample.utils
                (Error "Mistral API error: 500 Internal Server Error")
                "Mistral")).
Proof. repeat split. Qed.


(** ** The request body *)

Lemma remove_null_keys_obj (kind : obj_kind) (keys : list string) (ps : props) :
  remove_null_keys (VObj kind ps) keys
  = VObj kind (fold_left remove_null_key keys ps).
Proof.
  unfold remove_null_keys.
  revert ps. induction keys as [|key keys IH]; intros ps; simpl.
  - reflexivity.
  - unfold remove_null_key at 2.
    destruct (is_null (Props.get ps key)); simpl; apply IH.
Qed.

(** The second pass on an object: the null-valued own keys go; a
    [response_format] that is an object has its null-valued own keys
    removed in turn and goes as a whole once it has no key left. *)
Lemma cloudflare_pass_obj (kind : obj_kind) (ps : props) :
  cloudflare_pass (VObj kind ps)
  = let ps1 := fold_left remove_null_key (Props.keys ps) ps in
    Ok (match Props.get ps1 "response_format" with
        | VObj rkind rps =>
            let rps' := fold_left remove_null_key (Props.keys rps) rps in
            let ps2 := Props.set "response_format" (VObj rkind rps') ps1 in
            if (List.length (Props.keys rps') =? 0)%nat
            then VObj kind (Props.delete "response_format" ps2)
            else VObj kind ps2
        | _ => VObj kind ps1
        end).
Proof.
  unfold cloudflare_pass. simpl. rewrite remove_null_keys_obj. simpl.
  destruct (Props.get _ "response_format")
    as [| |b|n|s|rkind rps|fname] eqn:Hrf;
    simpl; try reflexivity.
  - destruct b; reflexivity.
  - destruct (negb (n =? 0)); reflexivity.
  - destruct (negb (s =? "")%string); reflexivity.
  - rewrite remove_null_keys_obj. simpl.
    destruct (List.length _ =? 0)%nat; reflexivity.
Qed.

(** On anything but an object the pass throws ([null], [undefined]) or
    changes nothing. *)
Lemma cloudflare_pass_primitive (v body' : value) :
  (forall kind ps, v <> VObj kind ps) ->
  cloudflare_pass v = Ok body' -> body' = v.
Proof.
  intros Hv. unfold cloudflare_pass.
  destruct v; simpl; try discriminate; try (intros H; inversion H; reflexivity).
  exfalso. exact (Hv _ _ eq_refl).
Qed.

(** The second pass keeps every field that is not [null], the
    [response_format] apart. *)
Lemma cloudflare_pass_keeps_other_fields (kind : obj_kind) (ps : props)
    (body' : value) (k : string) :
  cloudflare_pass (VObj kind ps) = Ok body' ->
  k <> "response_format" ->
  is_null (Props.get ps k) = false ->
  get_prop body' k = Props.get ps k.
Proof.
  rewrite cloudflare_pass_obj. cbv zeta. intros H Hk Hnull.
  assert (Hkeep :
    Props.get (fold_left remove_null_key (Props.keys ps) ps) k
    = Props.get ps k)
    by (rewrite PropsFacts.get_strip_own, Hnull; reflexivity).
  assert (Hneq : ("response_format" =? k)%string = false)
    by (apply String.eqb_neq; congruence).
  destruct (Props.get _ "response_format");
    try (inversion H; subst body'; exact Hkeep).
  destruct (List.length _ =? 0)%nat; inversion H; subst body'; simpl.
  - rewrite PropsFacts.get_delete, Hneq, PropsFacts.get_set, Hneq.
    exact Hkeep.
  - rewrite PropsFacts.get_set, Hneq. exact Hkeep.
Qed.

Lemma get_strip_own_not_null (ps : props) (k : string) :
  Props.get (fold_left remove_null_key (Props.keys ps) ps) k <> VNull.
Proof.
  rewrite PropsFacts.get_strip_own.
  destruct (Props.get ps k); simpl; discriminate.
Qed.

Section RequestBody.

Variable cfg : config.

Lemma final_request_body_cloudflare (requestBody body' : value) :
  providerName cfg = "Cloudflare" ->
  final_request_body cfg requestBody = Ok body' ->
  exists body,
    match transformRequest cfg with
    | Some f => f (cleanNullAndUndefined requestBody)
    | None => Ok (cleanNullAndUndefined requestBody)
    end = Ok body
    /\ cloudflare_pass body = Ok body'.
Proof.
  intros Hname. unfold final_request_body. rewrite Hname. simpl.
  destruct (match transformRequest cfg with
            | Some f => f (cleanNullAndUndefined requestBody)
            | None => Ok (cleanNullAndUndefined requestBody)
            end) as [body|e]; simpl; [|discriminate].
  intros H. exists body. split; [reflexivity | exact H].
Qed.

(** C4, as the code has it: for the provider named Cloudflare the final
    body reads [null] under none of its own keys, and its
    [response_format] reads [null] under none of its own keys.  (Fields
    nested elsewhere, or deeper inside [response_format], are not
    visited.) *)
Theorem cloudflare_pass_removes_shallow_nulls (requestBody body' : value) :
  providerName cfg = "Cloudflare" ->
  final_request_body cfg requestBody = Ok body' ->
  (forall k, get_prop body' k <> VNull)
  /\ (forall k, get_prop (get_prop body' "response_format") k <> VNull).
Proof.
  intros Hname Hfinal.
  destruct (final_request_body_cloudflare _ _ Hname Hfinal)
    as (body & _ & Hpass).
  clear Hfinal. destruct body as [| |b|n|s|kind ps|fname];
    try (apply cloudflare_pass_primitive in Hpass; [|discriminate];
         subst body'; split; intros k; simpl; discriminate).
  rewrite cloudflare_pass_obj in Hpass. simpl in Hpass.
  set (ps1 := fold_left remove_null_key (Props.keys ps) ps) in *.
  assert (H1 : forall k, Props.get ps1 k <> VNull)
    by (intros k; apply get_strip_own_not_null).
  destruct (Props.get ps1 "response_format")
    as [| |b|n|s|rkind rps|gname] eqn:Hrf;
    try (inversion Hpass; subst body'; simpl; split;
         [exact H1 | intros k; rewrite Hrf; simpl; discriminate]).
  set (rps' := fold_left remove_null_key (Props.keys rps) rps) in *.
  destruct (List.length (Props.keys rps') =? 0)%nat;
    inversion Hpass; subst body'; simpl; split; intros k.
  - rewrite PropsFacts.get_delete, PropsFacts.get_set.
    destruct ("response_format" =? k)%string; [discriminate | apply H1].
  - rewrite PropsFacts.get_delete, String.eqb_refl. simpl. discriminate.
  - rewrite PropsFacts.get_set.
    destruct ("response_format" =? k)%string; [discriminate | apply H1].
  - rewrite PropsFacts.get_set, String.eqb_refl. simpl.
    apply get_strip_own_not_null.
Qed.

(** C5: for the provider named Cloudflare, when the body handed to the
    second pass has an object under [response_format] that null-stripping
    reduces to the empty object, the final body has no
    [response_format] key. *)
Theorem emptied_response_format_is_removed
    (requestBody : value) (kind rkind : obj_kind) (ps rps : props) :
  providerName cfg = "Cloudflare" ->
  match transformRequest cfg with
  | Some f => f (cleanNullAndUndefined requestBody)
  | None => Ok (cleanNullAndUndefined requestBody)
  end = Ok (VObj kind ps) ->
  Props.get ps "response_format" = VObj rkind rps ->
  remove_null_keys (VObj rkind rps) (Props.keys rps) = VObj rkind [] ->
  exists body',
    final_request_body cfg requestBody = Ok body'
    /\ has_prop body' "response_format" = false.
Proof.
  intros Hname Hbody Hrf Hempty.
  unfold final_request_body. rewrite Hbody, Hname. simpl.
  rewrite cloudflare_pass_obj. simpl.
  rewrite PropsFacts.get_strip_own, Hrf. simpl.
  rewrite remove_null_keys_obj in Hempty. inversion Hempty as [Hfold].
  rewrite Hfold. simpl.
  eexists. split; [reflexivity|]. simpl.
  apply PropsFacts.has_delete_same.
Qed.

End RequestBody.

(** C4, a counterexample to removal at any depth: the Cloudflare
    sample's transform adds [stream_options: { include_usage: null }];
    the second pass leaves that nested [null] in place, and it is sent
    upstream. *)
Lemma cloudflare_pass_leaves_nested_null :
  providerName Sample.cloudflare = "Cloudflare"
  /\ (exists body',
        final_request_body Sample.cloudflare
          (build_request_body (VStr "@cf/meta/llama-3.1-8b-instruct")
             Sample.messages
             (normalized Sample.utils Sample.cloudflare Sample.plain_options))
        = Ok body'
        /\ get_prop (get_prop body' "stream_options") "include_usage" = VNull
        /\ has_null_field body' = true)
  /\ (exists sent,
        fetches (snd (client Sample.utils (Sample.answers Sample.bare_completion)
                        Sample.cloudflare "req1" 1700000000123
                        Sample.messages Sample.plain_options initial_world))
        = [sent]
        /\ includes "include_usage" (to_string (req_body sent)) = true
        /\ includes ":null" (to_string (req_body sent)) = true).
Proof.
  split; [reflexivity|]. split.
  - set (r := final_request_body _ _). vm_compute in r. subst r.
    eexists. split; [reflexivity|]. split; reflexivity.
  - set (r := client _ _ _ _ _ _ _ _). vm_compute in r. subst r.
    eexists. split; [reflexivity|]. split; vm_compute; reflexivity.
Qed.

Lemma clean_plain (ps : props) :
  cleanNullAndUndefined (VObj Plain ps) = VObj Plain (clean_props ps).
Proof. reflexivity. Qed.

(** The sanitized request body, and what it reads under
    [response_format]. *)
Lemma clean_request_body (modelName messagesWithSystem : value)
    (normalizedOptions : normalized_options) :
  exists sanitized,
    cleanNullAndUndefined
      (build_request_body modelName messagesWithSystem normalizedOptions)
    = VObj Plain sanitized
    /\ Props.lookup "response_format" sanitized
       = if truthy (jsonMode normalizedOptions)
         then Some (VObj Plain [("type", VStr "json_object")])
         else None.
Proof.
  eexists. split.
  - unfold build_request_body. rewrite clean_plain. reflexivity.
  - rewrite PropsFacts.lookup_clean_props.
    cbn [find fst snd String.eqb Ascii.eqb Bool.eqb andb].
    destruct (truthy (jsonMode normalizedOptions)); reflexivity.
Qed.

(** The second pass keeps a key absent that was absent. *)
Lemma cloudflare_pass_keeps_absent (kind : obj_kind) (ps : props)
    (k : string) (body' : value) :
  Props.has ps k = false ->
  Props.has ps "response_format" = false ->
  cloudflare_pass (VObj kind ps) = Ok body' ->
  has_prop body' k = false.
Proof.
  intros Hk Hrf. rewrite cloudflare_pass_obj. cbv zeta.
  pose proof (PropsFacts.has_fold_remove_null (Props.keys ps) _ _ Hrf) as Hrf'.
  rewrite (PropsFacts.get_of_has_false _ _ Hrf').
  intros H. inversion H; subst. simpl.
  apply PropsFacts.has_fold_remove_null. exact Hk.
Qed.

(** C7: the body built at lines 76-86 holds
    [response_format: { type: 'json_object' }] exactly when [jsonMode]
    is truthy, and the sanitized body keeps it then; when [jsonMode] is
    falsy the sanitized body has no [response_format] key, and without a
    transform hook the body that is dispatched has none either. *)
Theorem response_format_follows_jsonMode
    (modelName messagesWithSystem : value)
    (normalizedOptions : normalized_options) :
  let requestBody :=
    build_request_body modelName messagesWithSystem normalizedOptions in
  let json_object := VObj Plain [("type", VStr "json_object")] in
  (get_prop requestBody "response_format" = json_object
   <-> truthy (jsonMode normalizedOptions) = true)
  /\ (truthy (jsonMode normalizedOptions) = true ->
      get_prop (cleanNullAndUndefined requestBody) "response_format"
      = json_object)
  /\ (truthy (jsonMode normalizedOptions) = false ->
      has_prop (cleanNullAndUndefined requestBody) "response_format" = false)
  /\ (forall cfg body,
        truthy (jsonMode normalizedOptions) = false ->
        transformRequest cfg = None ->
        final_request_body cfg requestBody = Ok body ->
        has_prop body "response_format" = false).
Proof.
  intros requestBody json_object. subst requestBody json_object.
  destruct (clean_request_body modelName messagesWithSystem normalizedOptions)
    as (sanitized & Hclean & Hlookup).
  split; [|split; [|split]].
  - unfold build_request_body, get_prop, Props.get.
    cbn [Props.lookup String.eqb Ascii.eqb Bool.eqb].
    destruct (truthy (jsonMode normalizedOptions)); split;
      try reflexivity; discriminate.
  - intros Hj. rewrite Hclean. unfold get_prop, Props.get.
    rewrite Hlookup, Hj. reflexivity.
  - intros Hj. rewrite Hclean. unfold has_prop, Props.has.
    rewrite Hlookup, Hj. reflexivity.
  - intros cfg body Hj Hnone.
    assert (Habsent : Props.has sanitized "response_format" = false)
      by (unfold Props.has; rewrite Hlookup, Hj; reflexivity).
    unfold final_request_body. rewrite Hnone, Hclean. cbn [obind].
    destruct (providerName cfg =? "Cloudflare")%string.
    + apply cloudflare_pass_keeps_absent; assumption.
    + intros H. inversion H; subst. exact Habsent.
Qed.


(** ** Shaping the response *)

Lemma stringify_obj (kind : obj_kind) (ps : props) :
  exists t, JSON_stringify (VObj kind ps) = VStr t.
Proof.
  unfold JSON_stringify. destruct kind; simpl; eauto.
Qed.

Lemma fill_missing_obj (k : string) (x : value) (kind : obj_kind) (ps : props) :
  fill_missing k x (VObj kind ps)
  = Ok (VObj kind (if truthy (Props.get ps k) then ps else Props.set k x ps)).
Proof.
  unfold fill_missing. simpl. destruct (truthy (Props.get ps k)); reflexivity.
Qed.

Lemma get_fill (k k' : string) (x : value) (ps : props) :
  Props.get (if truthy (Props.get ps k) then ps else Props.set k x ps) k'
  = if (k =? k')%string && negb (truthy (Props.get ps k'))
    then x else Props.get ps k'.
Proof.
  destruct (k =? k')%string eqn:E; simpl.
  - apply String.eqb_eq in E; subst k'.
    destruct (truthy (Props.get ps k)); simpl; [reflexivity|].
    rewrite PropsFacts.get_set, String.eqb_refl. reflexivity.
  - destruct (truthy (Props.get ps k)); [reflexivity|].
    rewrite PropsFacts.get_set, E. reflexivity.
Qed.

(** Lines 239-255 on an object: each of [id], [object] and [usage] that
    reads falsy is set to its default; every other reading is kept. *)
Lemma backfill_obj (cfg : config) (requestId : string)
    (kind : obj_kind) (ps : props) :
  exists ps',
    backfill cfg requestId (VObj kind ps) = Ok (VObj kind ps')
    /\ forall k,
        Props.get ps' k
        = if negb (truthy (Props.get ps k)) then
            if (k =? "id")%string
            then VStr (toLowerCase (providerName cfg) ++ "-" ++ requestId)
            else if (k =? "object")%string then VStr "chat.completion"
            else if (k =? "usage")%string then zero_usage
            else Props.get ps k
          else Props.get ps k.
Proof.
  unfold backfill. rewrite fill_missing_obj. simpl.
  rewrite fill_missing_obj. simpl. rewrite fill_missing_obj.
  eexists. split; [reflexivity|]. intros k.
  rewrite !get_fill.
  rewrite (String.eqb_sym "usage" k), (String.eqb_sym "object" k),
    (String.eqb_sym "id" k).
  destruct (k =? "usage")%string eqn:Eu.
  - apply String.eqb_eq in Eu; subst k. simpl.
    destruct (truthy (Props.get ps "usage")); reflexivity.
  - simpl. destruct (k =? "object")%string eqn:Eo.
    + apply String.eqb_eq in Eo; subst k. simpl.
      destruct (truthy (Props.get ps "object")); reflexivity.
    + simpl. destruct (k =? "id")%string; simpl;
        destruct (truthy (Props.get ps k)); reflexivity.
Qed.

Section Responses.

Variable utils : text_generation_utils.
Variable fetch : request -> outcome response.
Variable cfg : config.

(** C6: a non-streaming call answered with a 2xx status whose body
    parses to an object.  Without [formatResponse] the client returns
    the payload, in which each of [id], [object] and [usage] that the
    payload lacks (reads falsy) is
    [`${providerName.toLowerCase()}-${requestId}`], ['chat.completion']
    and the all-zero usage, and every other field is as the provider
    sent it.  With [formatResponse] the client returns what
    [formatResponse(data, requestId, startTime, modelName)] returns, as
    it is (what it resolves to, when that is a promise). *)
Theorem successful_completion_is_backfilled_or_formatted
    requestId startTime messages options w r w' kind ps :
  dispatch utils fetch cfg messages options w = (Ok r, w') ->
  truthy (stream (normalized utils cfg options)) = false ->
  ok r = true ->
  json r = Ok (VObj kind ps) ->
  match formatResponse cfg with
  | None =>
      exists data',
        client utils fetch cfg requestId startTime messages options w
        = (Ok (Completion data'), w')
        /\ (truthy (Props.get ps "id") = false ->
            get_prop data' "id"
            = VStr (toLowerCase (providerName cfg) ++ "-" ++ requestId))
        /\ (truthy (Props.get ps "object") = false ->
            get_prop data' "object" = VStr "chat.completion")
        /\ (truthy (Props.get ps "usage") = false ->
            get_prop data' "usage"
            = VObj Plain [ ("prompt_tokens", VNum 0);
                           ("completion_tokens", VNum 0);
                           ("total_tokens", VNum 0) ])
        /\ (forall k, truthy (Props.get ps k) = true ->
                      get_prop data' k = Props.get ps k)
        /\ (forall k, k <> "id" -> k <> "object" -> k <> "usage" ->
                      get_prop data' k = Props.get ps k)
  | Some format =>
      forall v,
        format (VObj kind ps) requestId startTime
          (resolve_model cfg (normalized utils cfg options)) = Ok (Value v)
        \/ format (VObj kind ps) requestId startTime
             (resolve_model cfg (normalized utils cfg options))
           = Ok (Promise (Ok v)) ->
        client utils fetch cfg requestId startTime messages options w
        = (Ok (Formatted v), w')
  end.
Proof.
  intros Hd Hs Hok Hjson.
  assert (Hbody :
    client_body utils fetch cfg requestId startTime messages options w
    = match formatResponse cfg with
      | Some format =>
          match format (VObj kind ps) requestId startTime
                  (resolve_model cfg (normalized utils cfg options)) with
          | Ok (Value v) => (Ok (Reply (Formatted v)), w')
          | Ok (Promise settled) => (Ok (Pending settled), w')
          | Throw e => (Throw e, w')
          end
      | None =>
          match backfill cfg requestId (VObj kind ps) with
          | Ok data' => (Ok (Reply (Completion data')), w')
          | Throw e => (Throw e, w')
          end
      end).
  { rewrite (completion_body _ _ _ _ _ _ _ _ _ _ Hd Hs).
    rewrite (handle_parsed _ _ _ _ _ _ _ _ Hok Hjson).
    destruct (stringify_obj kind ps) as (t & Ht). rewrite Ht. reflexivity. }
  rewrite client_catches, Hbody.
  destruct (formatResponse cfg) as [format|].
  - intros v [Hv|Hv]; rewrite Hv; reflexivity.
  - destruct (backfill_obj cfg requestId kind ps) as (ps' & Hfill & Hget).
    rewrite Hfill. exists (VObj kind ps'). split; [reflexivity|].
    simpl. repeat split.
    + intros H. rewrite Hget, H. reflexivity.
    + intros H. rewrite Hget, H. reflexivity.
    + intros H. rewrite Hget, H. reflexivity.
    + intros k H. rewrite Hget, H. reflexivity.
    + intros k Hid Hobj Husage. rewrite Hget.
      apply String.eqb_neq in Hid, Hobj, Husage.
      rewrite Hid, Hobj, Husage.
      destruct (negb (truthy (Props.get ps k))); reflexivity.
Qed.

End Responses.


(** ** Dispatch *)

Lemma lookup_app (k : string) (l1 l2 : props) :
  Props.lookup k (l1 ++ l2)%list
  = match Props.lookup k l1 with
    | Some v => Some v
    | None => Props.lookup k l2
    end.
Proof.
  induction l1 as [|[k1 v1] l1 IH]; simpl.
  - reflexivity.
  - destruct (k1 =? k)%string; [reflexivity | exact IH].
Qed.

(** Lines 143-147: an entry of [additionalHeaders] wins over the two
    headers the client sets itself, and [Content-Type] over the
    credential header should they bear the same name. *)
Lemma build_headers_lookup (cfg : config) (auth : value) (k : string) :
  Props.lookup k (build_headers cfg auth)
  = match last_binding k (additionalHeaders cfg) with
    | Some v => Some v
    | None =>
        if ("Content-Type" =? k)%string then Some (VStr "application/json")
        else if (authHeaderName cfg =? k)%string then Some auth
        else None
    end.
Proof.
  unfold build_headers. rewrite PropsFacts.lookup_assign.
  unfold last_binding. rewrite rev_app_distr, lookup_app.
  cbn [rev app Props.lookup].
  destruct (Props.lookup k (rev (additionalHeaders cfg))); [reflexivity|].
  destruct ("Content-Type" =? k)%string; [reflexivity|].
  destruct (authHeaderName cfg =? k)%string; reflexivity.
Qed.

(** Every member a plain object inherits is truthy. *)
Lemma inherited_truthy (k : string) (m : value) :
  Props.lookup k object_prototype = Some m -> truthy m = true.
Proof.
  unfold object_prototype, builtin. cbn [Props.lookup].
  repeat (destruct (_ =? k)%string; [intros H; inversion H; reflexivity|]).
  discriminate.
Qed.

(** The second read of line 66: under the first own key, the value of
    the first entry; of an empty mapping, [undefined]. *)
Lemma member_first (mapping : props) :
  member mapping
    (to_string match Props.keys mapping with
               | k :: _ => VStr k
               | [] => VUndefined
               end)
  = match mapping with
    | (_, v) :: _ => v
    | [] => VUndefined
    end.
Proof.
  destruct mapping as [|[k v] rest]; [reflexivity|].
  unfold member. cbn [Props.keys map fst to_string Props.lookup].
  rewrite String.eqb_refl. reflexivity.
Qed.

(** Line 66 on a mapping: a truthy own entry under the key is the name;
    a key with a falsy own entry, or with no entry that is not the name
    of an inherited member either, gives the value of the first entry;
    a key with no own entry that names an inherited member gives that
    member. *)
Lemma lookup_or_first_found (mapping : props) (key v : value) :
  Props.lookup (to_string key) mapping = Some v ->
  lookup_or_first mapping key
  = if truthy v then v
    else match mapping with
         | (_, first) :: _ => first
         | [] => VUndefined
         end.
Proof.
  intros Hfound. unfold lookup_or_first. rewrite member_first.
  unfold member. rewrite Hfound. reflexivity.
Qed.

Lemma lookup_or_first_fallback (mapping : props) (key : value) :
  Props.lookup (to_string key) mapping = None ->
  Props.lookup (to_string key) object_prototype = None ->
  lookup_or_first mapping key
  = match mapping with
    | (_, v) :: _ => v
    | [] => VUndefined
    end.
Proof.
  intros Hnone Hplain. unfold lookup_or_first. rewrite member_first.
  unfold member, Props.get. rewrite Hnone, Hplain. reflexivity.
Qed.

Lemma lookup_or_first_inherited (mapping : props) (key m : value) :
  Props.lookup (to_string key) mapping = None ->
  Props.lookup (to_string key) object_prototype = Some m ->
  lookup_or_first mapping key = m.
Proof.
  intros Hnone Hinherited. unfold lookup_or_first, member, Props.get.
  rewrite Hnone, Hinherited, (inherited_truthy _ _ Hinherited). reflexivity.
Qed.

Section Dispatch.

Variable utils : text_generation_utils.
Variable fetch : request -> outcome response.
Variable cfg : config.

(** After [dispatch] nothing touches the world. *)
Lemma client_world requestId startTime messages options w :
  snd (client utils fetch cfg requestId startTime messages options w)
  = snd (dispatch utils fetch cfg messages options w).
Proof.
  rewrite client_catches.
  destruct (dispatch utils fetch cfg messages options w) as [[r|e] w1] eqn:Hd.
  2: { rewrite (dispatch_failure_body _ _ _ _ _ _ _ _ _ _ Hd). reflexivity. }
  simpl.
  destruct (truthy (stream (normalized utils cfg options))) eqn:Hs.
  - rewrite (streaming_body _ _ _ _ _ _ _ _ _ _ Hd Hs).
    pose proof (handle_streaming_keeps_world cfg requestId startTime
                  (resolve_model cfg (normalized utils cfg options)) r w1) as H.
    destruct (handle_streaming _ _ _ _ _ _) as [[x|e] w2]; exact H.
  - rewrite (completion_body _ _ _ _ _ _ _ _ _ _ Hd Hs).
    pose proof (handle_completion_keeps_world utils cfg requestId startTime
                  (resolve_model cfg (normalized utils cfg options)) r w1) as H.
    destruct (handle_completion _ _ _ _ _ _ _) as [[[x|[v|e]]|e] w2]; exact H.
Qed.

(** C9: a call whose request is built (the credential is set, the
    messages pass, the hooks do not throw) issues exactly one request,
    whatever the network then answers: a POST to [endpoint(modelName)]
    when the endpoint is a function and to [endpoint] otherwise; its
    body is [JSON.stringify] of the sanitized body, after the transform
    hook and, for the provider named Cloudflare, the second pass; its
    headers are the credential header with the value of the second call
    of [authHeaderValue()] and [Content-Type: application/json],
    overlaid with every entry of [additionalHeaders].  What the
    transport answers to that request is what the rest of the call
    works on. *)
Theorem one_post_per_dispatched_call
    requestId startTime messages options w
    key validated withSystem transformed final url auth :
  let normalizedOptions := normalized utils cfg options in
  let modelName := resolve_model cfg normalizedOptions in
  let sanitized :=
    cleanNullAndUndefined
      (build_request_body modelName withSystem normalizedOptions) in
  let sent :=
    {| req_url := url;
       req_method := "POST";
       req_headers :=
         Props.assign []
           ([ (authHeaderName cfg, auth);
              ("Content-Type", VStr "application/json") ]
            ++ additionalHeaders cfg)%list;
       req_body := JSON_stringify final |} in
  authHeaderValue cfg (auth_calls w) = Ok key ->
  truthy key = true ->
  validateAndNormalizeMessages utils messages = Ok validated ->
  ensureSystemMessage utils validated normalizedOptions
    (default_system_prompt cfg normalizedOptions) = Ok withSystem ->
  match transformRequest cfg with
  | Some f => f sanitized
  | None => Ok sanitized
  end = Ok transformed ->
  (if (providerName cfg =? "Cloudflare")%string
   then cloudflare_pass transformed
   else Ok transformed) = Ok final ->
  match endpoint cfg with
  | EndpointFn f => f modelName
  | EndpointUrl u => Ok u
  end = Ok url ->
  authHeaderValue cfg (S (auth_calls w)) = Ok auth ->
  dispatch utils fetch cfg messages options w
  = (fetch sent,
     {| fetches := (fetches w ++ [sent])%list;
        auth_calls := S (S (auth_calls w)) |})
  /\ fetches (snd (client utils fetch cfg requestId startTime
                     messages options w))
     = (fetches w ++ [sent])%list
  /\ forall k,
       Props.lookup k (req_headers sent)
       = match last_binding k (additionalHeaders cfg) with
         | Some v => Some v
         | None =>
             if ("Content-Type" =? k)%string
             then Some (VStr "application/json")
             else if (authHeaderName cfg =? k)%string then Some auth
             else None
         end.
Proof.
  intros normalizedOptions modelName sanitized sent
    Hkey Htruthy Hval Hens Htransform Hpass Hurl Hauth.
  assert (Hd :
    dispatch utils fetch cfg messages options w
    = (fetch sent,
       {| fetches := (fetches w ++ [sent])%list;
          auth_calls := S (S (auth_calls w)) |})).
  { assert (Hfinal :
      final_request_body cfg
        (build_request_body modelName withSystem normalizedOptions)
      = Ok final).
    { unfold final_request_body. fold sanitized. rewrite Htransform.
      cbn [obind]. exact Hpass. }
    assert (Hurl' : resolve_endpoint cfg modelName = Ok url) by exact Hurl.
    unfold dispatch, bind, call_authHeaderValue, call_fetch, lift, throw;
      simpl.
    rewrite Hkey, Htruthy; simpl. rewrite Hval.
    fold normalizedOptions. fold modelName.
    rewrite Hens, Hfinal, Hurl', Hauth. reflexivity. }
  split; [exact Hd|]. split.
  - rewrite client_world, Hd. reflexivity.
  - intros k. apply (build_headers_lookup cfg auth k).
Qed.

End Dispatch.

(** C8: a model key that names an inherited member.  The mistral sample
    maps two keys; asked for the model [constructor], which is neither,
    the client does not fall back to the first entry: the read of
    line 66 finds the constructor every object inherits, the name is
    that function, and [JSON.stringify] leaves the [model] out of the
    one request that is sent. *)
Theorem inherited_model_key_is_not_resolved_to_the_first_entry :
  let modelName :=
    resolve_model Sample.mistral
      (normalized Sample.utils Sample.mistral Scenario.inherited_key) in
  let after :=
    snd (client Sample.utils (Sample.answers Sample.bare_completion)
           Sample.mistral "req1" 1700000000123
           Sample.messages Scenario.inherited_key initial_world) in
  Props.has (modelMapping Sample.mistral) "constructor" = false
  /\ modelName = VFun "Object"
  /\ modelName <> VStr "mistral-small-latest"
  /\ map req_body (fetches after)
     = [ JSON_stringify
           (VObj Plain [ ("messages", Sample.messages);
                         ("stream", VBool false) ]) ].
Proof.
  cbv zeta. split; [reflexivity|]. split; [reflexivity|].
  split; [discriminate|]. vm_compute. reflexivity.
Qed.


(** ** The theorems at work on the sample providers *)


(** Two calls in sequence to a provider whose credential is empty from
    the second call on: the second call adds no request to the one the
    first call issued. *)
Lemma missing_credential_fails_before_dispatch_witness :
  authHeaderValue Sample.expiring (auth_calls Sample.after_first_call)
  = Ok (VStr "")
  /\ truthy (VStr "") = false
  /\ List.length (fetches Sample.after_first_call) = 1%nat
  /\ client Sample.utils (Sample.answers Sample.bare_completion) Sample.expiring
       "req2" 1700000000456 Sample.messages Sample.plain_options
       Sample.after_first_call
     = (Ok (ErrorResponse
              (createErrorResponse Sample.utils
                 (Error "Mistral API key is not set") "Mistral")),
        {| fetches := fetches Sample.after_first_call; auth_calls := 3 |}).
Proof.
  split; [reflexivity|]. split; [reflexivity|]. split; [reflexivity|].
  exact (missing_credential_fails_before_dispatch
           Sample.utils (Sample.answers Sample.bare_completion) Sample.expiring
           "req2" 1700000000456 Sample.messages Sample.plain_options
           Sample.after_first_call (VStr "") eq_refl eq_refl).
Defined.

(** The mistral sample, streaming, answered with an event stream. *)
Lemma returned_envelope_has_no_error_witness :
  exists envelope w',
    client Sample.utils (Sample.answers Sample.event_stream) Sample.mistral
      "req1" 1700000000123 Sample.messages Sample.streaming_options initial_world
    = (Ok (Streaming envelope), w')
    /\ Envelope.error envelope = VUndefined.
Proof.
  eexists. eexists. split; [lazy; reflexivity|].
  eapply (returned_envelope_has_no_error
            Sample.utils (Sample.answers Sample.event_stream) Sample.mistral
            "req1" 1700000000123 Sample.messages Sample.streaming_options
            initial_world).
  lazy. reflexivity.
Defined.

(** The Cloudflare sample: the transform's top-level [user: null] and
    the nulls directly inside [response_format] are gone. *)
Lemma cloudflare_pass_removes_shallow_nulls_witness :
  providerName Sample.cloudflare = "Cloudflare"
  /\ exists body',
       final_request_body Sample.cloudflare Sample.cloudflare_request_body
       = Ok body'
       /\ (forall k, get_prop body' k <> VNull)
       /\ (forall k, get_prop (get_prop body' "response_format") k <> VNull).
Proof.
  split; [reflexivity|].
  destruct (final_request_body Sample.cloudflare Sample.cloudflare_request_body)
    as [body'|e] eqn:E; [|lazy in E; discriminate E].
  exists body'. split; [reflexivity|].
  exact (cloudflare_pass_removes_shallow_nulls
           Sample.cloudflare Sample.cloudflare_request_body body' eq_refl E).
Defined.

(** The Cloudflare sample in JSON mode: the transform overwrites
    [response_format] with [{ type: null, json_schema: null }], which
    null-stripping empties; the final body has no such key. *)
Lemma emptied_response_format_is_removed_witness :
  exists kind ps rkind rps,
    providerName Sample.cloudflare = "Cloudflare"
    /\ match transformRequest Sample.cloudflare with
       | Some f => f (cleanNullAndUndefined Sample.cloudflare_request_body)
       | None => Ok (cleanNullAndUndefined Sample.cloudflare_request_body)
       end = Ok (VObj kind ps)
    /\ Props.get ps "response_format" = VObj rkind rps
    /\ remove_null_keys (VObj rkind rps) (Props.keys rps) = VObj rkind []
    /\ exists body',
         final_request_body Sample.cloudflare Sample.cloudflare_request_body
         = Ok body'
         /\ has_prop body' "response_format" = false.
Proof.
  eexists. eexists. eexists. eexists.
  split; [reflexivity|].
  split; [lazy; reflexivity|].
  split; [lazy; reflexivity|].
  split; [lazy; reflexivity|].
  eapply (emptied_response_format_is_removed
            Sample.cloudflare Sample.cloudflare_request_body);
    lazy; reflexivity.
Defined.

(** The mistral sample answered with a payload that has neither [id],
    [object] nor [usage]. *)
Lemma successful_completion_is_backfilled_witness :
  exists r w' kind ps,
    dispatch Sample.utils (Sample.answers Sample.bare_completion) Sample.mistral
      Sample.messages Sample.plain_options initial_world = (Ok r, w')
    /\ truthy (stream (normalized Sample.utils Sample.mistral Sample.plain_options))
       = false
    /\ ok r = true
    /\ json r = Ok (VObj kind ps)
    /\ exists data',
         client Sample.utils (Sample.answers Sample.bare_completion)
           Sample.mistral "req1" 1700000000123
           Sample.messages Sample.plain_options initial_world
         = (Ok (Completion data'), w')
         /\ get_prop data' "id" = VStr "mistral-req1"
         /\ get_prop data' "object" = VStr "chat.completion"
         /\ get_prop data' "usage"
            = VObj Plain [ ("prompt_tokens", VNum 0);
                           ("completion_tokens", VNum 0);
                           ("total_tokens", VNum 0) ]
         /\ get_prop data' "model" = VStr "mistral-small-latest".
Proof.
  eexists. eexists. eexists. eexists.
  split; [lazy; reflexivity|].
  split; [reflexivity|].
  split; [reflexivity|].
  split; [reflexivity|].
  destruct (successful_completion_is_backfilled_or_formatted
              Sample.utils (Sample.answers Sample.bare_completion) Sample.mistral
              "req1" 1700000000123 Sample.messages Sample.plain_options
              initial_world Sample.bare_completion _ _ _
              eq_refl eq_refl eq_refl eq_refl)
    as (data' & Hclient & Hid & Hobject & Husage & Hkept & _).
  exists data'. split; [exact Hclient|].
  split; [exact (Hid eq_refl)|].
  split; [exact (Hobject eq_refl)|].
  split; [exact (Husage eq_refl)|].
  exact (Hkept "model" eq_refl).
Defined.

(** The same payload through the formatter of the second sample. *)
Example formatted_completion_is_returned_as_is :
  fst (client Sample.utils (Sample.answers Sample.bare_completion)
         Sample.formatted "req1" 1700000000123
         Sample.messages Sample.plain_options initial_world)
  = Ok (Formatted
          (VObj Plain
             [ ("id", VStr "req1");
               ("model", VStr "mistral-small-latest");
               ("payload",
                 VObj Plain [ ("model", VStr "mistral-small-latest");
                              ("choices", array_of []) ]) ])).
Proof. reflexivity. Qed.

(** A call in JSON mode and a call without. *)
Lemma response_format_follows_jsonMode_witness :
  get_prop
    (cleanNullAndUndefined
       (build_request_body (VStr "mistral-small-latest") Sample.messages
          (normalized Sample.utils Sample.mistral Sample.json_options)))
    "response_format"
  = VObj Plain [("type", VStr "json_object")]
  /\ has_prop
       (cleanNullAndUndefined
          (build_request_body (VStr "mistral-small-latest") Sample.messages
             (normalized Sample.utils Sample.mistral Sample.plain_options)))
       "response_format"
     = false.
Proof.
  split.
  - exact (proj1 (proj2 (response_format_follows_jsonMode
                           (VStr "mistral-small-latest") Sample.messages
                           (normalized Sample.utils Sample.mistral
                              Sample.json_options)))
             eq_refl).
  - exact (proj1 (proj2 (proj2 (response_format_follows_jsonMode
                                  (VStr "mistral-small-latest") Sample.messages
                                  (normalized Sample.utils Sample.mistral
                                     Sample.plain_options))))
             eq_refl).
Defined.

(** The Cloudflare sample: the endpoint is a function of the model
    name, the transform adds fields, the second pass is on, and there
    is an additional header. *)
Lemma one_post_per_dispatched_call_witness :
  exists final,
    final_request_body Sample.cloudflare Sample.cloudflare_request_body
    = Ok final
    /\ fetches
         (snd (client Sample.utils (Sample.answers Sample.bare_completion)
                 Sample.cloudflare "req1" 1700000000123
                 Sample.messages Sample.json_options initial_world))
       = [ {| req_url :=
                VStr ("https://api.cloudflare.example/ai/run/"
                      ++ "@cf/meta/llama-3.1-8b-instruct");
              req_method := "POST";
              req_headers :=
                [ ("Authorization", VStr "Bearer sk-test");
                  ("Content-Type", VStr "application/json");
                  ("X-Client", VStr "pollinations") ];
              req_body := JSON_stringify final |} ].
Proof.
  eexists. split; [vm_compute; reflexivity|].
  refine (proj1 (proj2 (one_post_per_dispatched_call
                          Sample.utils (Sample.answers Sample.bare_completion)
                          Sample.cloudflare "req1" 1700000000123
                          Sample.messages Sample.json_options initial_world
                          (VStr "Bearer sk-test") Sample.messages
                          Sample.messages _ _ _ (VStr "Bearer sk-test")
                          eq_refl eq_refl eq_refl eq_refl _ _ _ eq_refl)));
    vm_compute; reflexivity.
Defined.


(** * Further properties of the client *)

Section ClientEdges.

Variable utils : text_generation_utils.
Variable fetch : request -> outcome response.
Variable cfg : config.

(** X1: a transport failure ([fetch] rejects) is returned as the error
    response of that failure on the streaming path as on the other; the
    one request has been issued and the credential accessor called
    twice. *)
Theorem transport_failure_is_returned
    requestId startTime messages options w
    key validated withSystem final url auth e :
  let normalizedOptions := normalized utils cfg options in
  let modelName := resolve_model cfg normalizedOptions in
  let sent := {| req_url := url;
                 req_method := "POST";
                 req_headers := build_headers cfg auth;
                 req_body := JSON_stringify final |} in
  authHeaderValue cfg (auth_calls w) = Ok key ->
  truthy key = true ->
  validateAndNormalizeMessages utils messages = Ok validated ->
  ensureSystemMessage utils validated normalizedOptions
    (default_system_prompt cfg normalizedOptions) = Ok withSystem ->
  final_request_body cfg
    (build_request_body modelName withSystem normalizedOptions) = Ok final ->
  resolve_endpoint cfg modelName = Ok url ->
  authHeaderValue cfg (S (auth_calls w)) = Ok auth ->
  fetch sent = Throw e ->
  client utils fetch cfg requestId startTime messages options w
  = (Ok (ErrorResponse (createErrorResponse utils e (providerName cfg))),
     {| fetches := fetches w ++ [sent];
        auth_calls := S (S (auth_calls w)) |}).
Proof.
  intros normalizedOptions modelName sent
    Hkey Htruthy Hval Hens Hfinal Hurl Hauth Hfetch.
  rewrite client_catches.
  unfold client_body, dispatch, bind, call_authHeaderValue, call_fetch,
    lift, throw; simpl.
  rewrite Hkey, Htruthy; simpl.
  rewrite Hval.
  fold normalizedOptions. fold modelName.
  rewrite Hens, Hfinal, Hurl, Hauth.
  fold sent. rewrite Hfetch. reflexivity.
Qed.

(** X2: when the message validator throws, the client returns the
    error response of that error; no request is issued and the
    credential accessor has been called once. *)
Theorem validation_failure_is_returned
    requestId startTime messages options w key e :
  authHeaderValue cfg (auth_calls w) = Ok key ->
  truthy key = true ->
  validateAndNormalizeMessages utils messages = Throw e ->
  client utils fetch cfg requestId startTime messages options w
  = (Ok (ErrorResponse (createErrorResponse utils e (providerName cfg))),
     {| fetches := fetches w; auth_calls := S (auth_calls w) |}).
Proof.
  intros Hkey Htruthy Hval.
  rewrite client_catches.
  unfold client_body, dispatch, bind, call_authHeaderValue, lift, throw; simpl.
  rewrite Hkey, Htruthy; simpl. rewrite Hval. reflexivity.
Qed.

(** X3: a 2xx answer on the non-streaming path whose body fails to
    parse gives the error response of the parse error; one whose body
    parses to [null], or, without a formatter, to a number, a string or
    a boolean, gives the error response of a [TypeError]. *)
Theorem unusable_payload_is_an_error
    requestId startTime messages options w r w' :
  dispatch utils fetch cfg messages options w = (Ok r, w') ->
  truthy (stream (normalized utils cfg options)) = false ->
  ok r = true ->
  (forall e,
     json r = Throw e ->
     client utils fetch cfg requestId startTime messages options w
     = (Ok (ErrorResponse (createErrorResponse utils e (providerName cfg))),
        w'))
  /\ (forall data,
        json r = Ok data ->
        data = VNull
        \/ (formatResponse cfg = None /\ is_primitive data = true) ->
        exists e,
          name e = "TypeError"
          /\ client utils fetch cfg requestId startTime messages options w
             = (Ok (ErrorResponse
                      (createErrorResponse utils e (providerName cfg))),
                w')).
Proof.
  intros Hd Hs Hok.
  assert (Hbody :
    client_body utils fetch cfg requestId startTime messages options w
    = handle_completion utils cfg requestId startTime
        (resolve_model cfg (normalized utils cfg options)) r w').
  { unfold client_body. rewrite (bind_ok _ _ _ _ _ Hd). simpl.
    rewrite Hs. reflexivity. }
  split.
  - intros e Hjson. rewrite client_catches, Hbody.
    unfold handle_completion. rewrite Hok, Hjson. reflexivity.
  - intros data Hjson Hdata. rewrite client_catches, Hbody.
    unfold handle_completion. rewrite Hok, Hjson. simpl.
    unfold bind, lift, ret.
    destruct Hdata as [Hnull | [Hnone Hprim]].
    + subst data. simpl. eexists. split; [|reflexivity]. reflexivity.
    + rewrite Hnone.
      destruct data as [| |b|n|s|kind ps|fname]; simpl in *;
        try discriminate;
        eexists; (split; [|reflexivity]); reflexivity.
Qed.

End ClientEdges.

(** ** Failures of the formatter *)

Section Formatter.

Variable utils : text_generation_utils.
Variable fetch : request -> outcome response.
Variable cfg : config.

(** X20: the two ways a configured [formatResponse] can fail on the
    payload of a 2xx answer.  When the call of the formatter throws,
    the client returns the error response of that error, like any
    error of the [try].  When the call returns a promise that rejects
    (an [async] formatter), the client itself rejects with the
    promise's error: line 234 returns the promise without awaiting it,
    so the [catch] of line 260 is left before the promise settles. *)
Theorem formatter_failure_is_returned_or_escapes
    requestId startTime messages options w r w' kind ps format :
  dispatch utils fetch cfg messages options w = (Ok r, w') ->
  truthy (stream (normalized utils cfg options)) = false ->
  ok r = true ->
  json r = Ok (VObj kind ps) ->
  formatResponse cfg = Some format ->
  let result :=
    format (VObj kind ps) requestId startTime
      (resolve_model cfg (normalized utils cfg options)) in
  (forall e,
     result = Throw e ->
     client utils fetch cfg requestId startTime messages options w
     = (Ok (ErrorResponse (createErrorResponse utils e (providerName cfg))),
        w'))
  /\ (forall e,
        result = Ok (Promise (Throw e)) ->
        client utils fetch cfg requestId startTime messages options w
        = (Throw e, w')).
Proof.
  intros Hd Hs Hok Hjson Hformat result.
  assert (Hclient :
    client utils fetch cfg requestId startTime messages options w
    = match result with
      | Ok (Value v) => (Ok (Formatted v), w')
      | Ok (Promise (Ok v)) => (Ok (Formatted v), w')
      | Ok (Promise (Throw e)) => (Throw e, w')
      | Throw e =>
          (Ok (ErrorResponse (createErrorResponse utils e (providerName cfg))),
           w')
      end).
  { rewrite client_catches, (completion_body _ _ _ _ _ _ _ _ _ _ Hd Hs).
    rewrite (handle_parsed _ _ _ _ _ _ _ _ Hok Hjson).
    destruct (stringify_obj kind ps) as (t & Ht). rewrite Ht.
    cbn [read_prop]. rewrite Hformat. fold result.
    destruct result as [[v|[v|e]]|e]; reflexivity. }
  split; intros e He; rewrite Hclient, He; reflexivity.
Qed.

End Formatter.

(** ** The streaming envelope *)

Section Streaming.

Variable utils : text_generation_utils.
Variable cfg : config.

(** Up to its one call of [fetch], [dispatch] does not depend on the
    network. *)
Lemma dispatch_network (fetch fetch' : request -> outcome response)
    messages options w :
  (exists e w',
      dispatch utils fetch cfg messages options w = (Throw e, w')
      /\ dispatch utils fetch' cfg messages options w = (Throw e, w')
      /\ fetches w' = fetches w)
  \/ (exists sent w',
        dispatch utils fetch cfg messages options w = (fetch sent, w')
        /\ dispatch utils fetch' cfg messages options w = (fetch' sent, w')
        /\ fetches w' = (fetches w ++ [sent])%list).
Proof.
  unfold dispatch, bind, call_authHeaderValue, call_fetch, lift, throw; simpl.
  destruct (authHeaderValue cfg (auth_calls w)) as [key|e];
    [|left; eauto].
  destruct (truthy key); simpl; [|left; eauto].
  destruct (validateAndNormalizeMessages utils messages) as [validated|e];
    [|left; eauto].
  destruct (ensureSystemMessage utils validated _ _) as [withSystem|e];
    [|left; eauto].
  destruct (final_request_body cfg _) as [final|e]; [|left; eauto].
  destruct (resolve_endpoint cfg _) as [url|e]; [|left; eauto].
  destruct (authHeaderValue cfg (S (auth_calls w))) as [auth|e];
    [|left; eauto].
  right. eauto.
Qed.

Lemma envelope_same_head requestId startTime modelName (r r' : response) :
  same_head (Ok r) (Ok r') ->
  ok r = ok r'
  /\ streaming_envelope cfg requestId startTime modelName r
     = streaming_envelope cfg requestId startTime modelName r'.
Proof.
  simpl. intros (Hstatus & Htext & Hheaders & Hbody).
  unfold ok, streaming_envelope, is_sse, api_error_message, ok.
  rewrite Hstatus, Htext, Hheaders, Hbody. split; reflexivity.
Qed.

(** A call returns a streaming envelope exactly when [dispatch] gives a
    2xx answer and the options ask for a stream; the envelope is the
    one of lines 180-191 for that answer. *)
Lemma streaming_reply fetch requestId startTime messages options w
    envelope w' :
  client utils fetch cfg requestId startTime messages options w
  = (Ok (Streaming envelope), w')
  <-> exists r,
        dispatch utils fetch cfg messages options w = (Ok r, w')
        /\ truthy (stream (normalized utils cfg options)) = true
        /\ ok r = true
        /\ envelope
           = streaming_envelope cfg requestId startTime
               (resolve_model cfg (normalized utils cfg options)) r.
Proof.
  rewrite client_catches. split.
  - destruct (dispatch utils fetch cfg messages options w) as [[r|e] w1]
      eqn:Hd.
    2: { rewrite (dispatch_failure_body _ _ _ _ _ _ _ _ _ _ Hd).
         discriminate. }
    destruct (truthy (stream (normalized utils cfg options))) eqn:Hs.
    + rewrite (streaming_body _ _ _ _ _ _ _ _ _ _ Hd Hs).
      unfold handle_streaming, bind, lift, throw, ret.
      destruct (negb (ok r)) eqn:Hok; [destruct (text r); discriminate|].
      intros H. inversion H; subst. exists r.
      apply negb_false_iff in Hok. auto.
    + rewrite (completion_body _ _ _ _ _ _ _ _ _ _ Hd Hs).
      unfold handle_completion, bind, lift, throw, ret.
      destruct (negb (ok r)); [destruct (text r); discriminate|].
      destruct (json r) as [data|e]; [|discriminate].
      destruct (read_prop (JSON_stringify data) "substring"); [|discriminate].
      destruct (read_prop data "model"); [|discriminate].
      destruct (formatResponse cfg) as [f|].
      * destruct (f data requestId startTime _) as [[v|[v|e]]|e];
          discriminate.
      * destruct (backfill cfg requestId data); discriminate.
  - intros (r & Hd & Hs & Hok & Henv).
    rewrite (streaming_body _ _ _ _ _ _ _ _ _ _ Hd Hs).
    unfold handle_streaming, ret. rewrite Hok, Henv. reflexivity.
Qed.

(** X4: the envelope of a streaming call does not depend on the content
    of the response body: against two networks whose answers agree on
    status line, headers and body handle, a call that returns an
    envelope on one returns the same envelope on the other. *)
Theorem envelope_ignores_body_content
    (fetch fetch' : request -> outcome response)
    requestId startTime messages options w envelope w' :
  (forall sent, same_head (fetch sent) (fetch' sent)) ->
  client utils fetch cfg requestId startTime messages options w
  = (Ok (Streaming envelope), w') ->
  client utils fetch' cfg requestId startTime messages options w
  = (Ok (Streaming envelope), w').
Proof.
  intros Hsame Hclient.
  apply streaming_reply in Hclient.
  destruct Hclient as (r & Hd & Hs & Hok & Henv).
  apply streaming_reply.
  destruct (dispatch_network fetch fetch' messages options w)
    as [(e & w1 & H & H' & _) | (sent & w1 & H & H' & _)];
    rewrite H in Hd; [discriminate|].
  specialize (Hsame sent).
  destruct (fetch sent) as [r0|e]; [|discriminate].
  inversion Hd; subst r0 w1.
  destruct (fetch' sent) as [r'|e']; simpl in Hsame; [|contradiction].
  destruct (envelope_same_head requestId startTime
              (resolve_model cfg (normalized utils cfg options)) r r' Hsame)
    as (Hok' & Henv').
  exists r'. split; [exact H'|]. split; [exact Hs|].
  split; [rewrite <- Hok'; exact Hok|].
  rewrite <- Henv'. exact Henv.
Qed.

(** X5: every envelope the client returns is named
    [`${providerName.toLowerCase()}-${requestId}`], is a
    ['chat.completion.chunk'] with [stream: true], carries the resolved
    model name and the provider name, is dated with the whole seconds of
    [startTime], and hands on the body handle of the 2xx answer to the
    one request the call issued. *)
Theorem returned_envelope_shape
    (fetch : request -> outcome response)
    requestId startTime messages options w envelope w' :
  client utils fetch cfg requestId startTime messages options w
  = (Ok (Streaming envelope), w') ->
  Envelope.id envelope = toLowerCase (providerName cfg) ++ "-" ++ requestId
  /\ Envelope.object envelope = "chat.completion.chunk"
  /\ Envelope.stream envelope = true
  /\ Envelope.model envelope
     = resolve_model cfg (normalized utils cfg options)
  /\ Envelope.providerName envelope = providerName cfg
  /\ 1000 * Envelope.created envelope <= startTime
     < 1000 * Envelope.created envelope + 1000
  /\ exists sent r,
       fetches w' = (fetches w ++ [sent])%list
       /\ fetch sent = Ok r
       /\ ok r = true
       /\ Envelope.responseStream envelope = body r.
Proof.
  intros Hclient. apply streaming_reply in Hclient.
  destruct Hclient as (r & Hd & Hs & Hok & Henv). subst envelope.
  unfold streaming_envelope.
  cbn [Envelope.id Envelope.object Envelope.stream Envelope.model
       Envelope.providerName Envelope.created Envelope.responseStream].
  repeat (split; [reflexivity|]). split.
  - pose proof (Z.div_mod startTime 1000 ltac:(lia)).
    pose proof (Z.mod_pos_bound startTime 1000 ltac:(lia)). lia.
  - destruct (dispatch_network fetch fetch messages options w)
      as [(e & w1 & H & _ & _) | (sent & w1 & H & _ & Hsent)];
      rewrite H in Hd; [discriminate|].
    inversion Hd as [[Hfetch Hw]]. subst w1.
    exists sent, r. auto.
Qed.

(** X9: a call consults the credential accessor once or twice, and
    twice whenever it issues a request. *)
Theorem credential_accessor_calls
    (fetch : request -> outcome response)
    requestId startTime messages options w :
  let w' := snd (client utils fetch cfg requestId startTime messages options w) in
  (auth_calls w' = S (auth_calls w) \/ auth_calls w' = S (S (auth_calls w)))
  /\ (fetches w' <> fetches w -> auth_calls w' = S (S (auth_calls w))).
Proof.
  intros w'. subst w'. rewrite client_world.
  unfold dispatch, bind, call_authHeaderValue, call_fetch, lift, throw; simpl.
  destruct (authHeaderValue cfg (auth_calls w)) as [key|e];
    [|simpl; split; [left; reflexivity | intros H; contradiction H; reflexivity]].
  destruct (truthy key); simpl;
    [|split; [left; reflexivity | intros H; contradiction H; reflexivity]].
  destruct (validateAndNormalizeMessages utils messages) as [validated|e];
    [|simpl; split; [left; reflexivity | intros H; contradiction H; reflexivity]].
  destruct (ensureSystemMessage utils validated _ _) as [withSystem|e];
    [|simpl; split; [left; reflexivity | intros H; contradiction H; reflexivity]].
  destruct (final_request_body cfg _) as [final|e];
    [|simpl; split; [left; reflexivity | intros H; contradiction H; reflexivity]].
  destruct (resolve_endpoint cfg _) as [url|e];
    [|simpl; split; [left; reflexivity | intros H; contradiction H; reflexivity]].
  destruct (authHeaderValue cfg (S (auth_calls w))) as [auth|e]; simpl.
  - split; [right; reflexivity | intros _; reflexivity].
  - split; [right; reflexivity | intros _; reflexivity].
Qed.

End Streaming.

(** ** The second pass, further *)

Lemma fold_remove_null_nothing (keys : list string) (ps : props) :
  (forall k, Props.get ps k <> VNull) ->
  fold_left remove_null_key keys ps = ps.
Proof.
  intros Hnonull. induction keys as [|key keys IH]; simpl.
  - reflexivity.
  - unfold remove_null_key at 2.
    destruct (Props.get ps key) eqn:E; simpl; try exact IH.
    exfalso. exact (Hnonull key E).
Qed.

Lemma set_set (k : string) (v : value) (ps : props) :
  Props.set k v (Props.set k v ps) = Props.set k v ps.
Proof.
  induction ps as [|[k0 v0] rest IH]; simpl.
  - rewrite String.eqb_refl. reflexivity.
  - destruct (k0 =? k)%string eqn:E; simpl.
    + rewrite String.eqb_refl. reflexivity.
    + rewrite E, IH. reflexivity.
Qed.

Lemma has_set (k k' : string) (v : value) (ps : props) :
  Props.has (Props.set k v ps) k' = (k =? k')%string || Props.has ps k'.
Proof.
  unfold Props.has. rewrite PropsFacts.lookup_set.
  destruct (k =? k')%string; reflexivity.
Qed.

Lemma has_of_get (ps : props) (k : string) :
  Props.get ps k <> VUndefined -> Props.has ps k = true.
Proof.
  unfold Props.get, Props.has.
  destruct (Props.lookup k ps); [reflexivity | intros H; contradiction H; reflexivity].
Qed.

Lemma has_strip_own (ps : props) (k : string) :
  Props.has (fold_left remove_null_key (Props.keys ps) ps) k = true ->
  Props.has ps k = true.
Proof.
  intros H. destruct (Props.has ps k) eqn:E; [reflexivity|].
  rewrite (PropsFacts.has_fold_remove_null _ _ _ E) in H. discriminate.
Qed.

(** X6: the second pass is idempotent: run on its own result it
    changes nothing. *)
Theorem cloudflare_pass_idempotent (body body' : value) :
  cloudflare_pass body = Ok body' ->
  cloudflare_pass body' = Ok body'.
Proof.
  intros Hpass.
  destruct body as [| |b|n|s|kind ps|fname];
    try (apply cloudflare_pass_primitive in Hpass; [|discriminate];
         subst body'; reflexivity);
    try discriminate.
  rewrite cloudflare_pass_obj in Hpass. cbv zeta in Hpass.
  set (ps1 := fold_left remove_null_key (Props.keys ps) ps) in *.
  assert (H1 : forall k, Props.get ps1 k <> VNull)
    by (intros k; apply get_strip_own_not_null).
  destruct (Props.get ps1 "response_format") as [| |b|n|s|rkind rps|gname] eqn:Hrf;
    try (inversion Hpass; subst body'; rewrite cloudflare_pass_obj; cbv zeta;
         rewrite (fold_remove_null_nothing _ _ H1), Hrf; reflexivity).
  set (rps' := fold_left remove_null_key (Props.keys rps) rps) in *.
  assert (Hr : forall k, Props.get rps' k <> VNull)
    by (intros k; apply get_strip_own_not_null).
  set (ps2 := Props.set "response_format" (VObj rkind rps') ps1) in *.
  assert (H2 : forall k, Props.get ps2 k <> VNull).
  { intros k. unfold ps2. rewrite PropsFacts.get_set.
    destruct ("response_format" =? k)%string; [discriminate | apply H1]. }
  destruct (List.length (Props.keys rps') =? 0)%nat eqn:Hlen;
    inversion Hpass; subst body'; rewrite cloudflare_pass_obj; cbv zeta.
  - assert (H3 : forall k,
      Props.get (Props.delete "response_format" ps2) k <> VNull).
    { intros k. rewrite PropsFacts.get_delete.
      destruct ("response_format" =? k)%string; [discriminate | apply H2]. }
    rewrite (fold_remove_null_nothing _ _ H3).
    rewrite PropsFacts.get_delete, String.eqb_refl. reflexivity.
  - rewrite (fold_remove_null_nothing _ _ H2).
    unfold ps2 at 1. rewrite PropsFacts.get_set, String.eqb_refl.
    fold rps'. rewrite (fold_remove_null_nothing _ _ Hr).
    fold rps'. rewrite Hlen. unfold ps2. rewrite set_set. reflexivity.
Qed.

(** X7: the second pass only removes: it adds no key to the body, and
    apart from [response_format] every field that is not [null] keeps its
    value. *)
Theorem cloudflare_pass_only_removes (body body' : value) :
  cloudflare_pass body = Ok body' ->
  (forall k, has_prop body' k = true -> has_prop body k = true)
  /\ (forall k, k <> "response_format" ->
                get_prop body k <> VNull ->
                get_prop body' k = get_prop body k).
Proof.
  intros Hpass.
  destruct body as [| |b|n|s|kind ps|fname];
    try (apply cloudflare_pass_primitive in Hpass; [|discriminate];
         subst body'; split; auto);
    try discriminate.
  split.
  - rewrite cloudflare_pass_obj in Hpass. cbv zeta in Hpass.
    set (ps1 := fold_left remove_null_key (Props.keys ps) ps) in *.
    intros k.
    destruct (Props.get ps1 "response_format") as [| |b|n|s|rkind rps|gname] eqn:Hrf;
      try (inversion Hpass; subst body'; simpl; apply has_strip_own).
    assert (Hhas : Props.has ps1 "response_format" = true)
      by (apply has_of_get; rewrite Hrf; discriminate).
    assert (Hset : forall v,
      Props.has (Props.set "response_format" v ps1) k = true ->
      Props.has ps k = true).
    { intros v. rewrite has_set.
      destruct ("response_format" =? k)%string eqn:E; simpl.
      - apply String.eqb_eq in E; subst k. intros _.
        apply has_strip_own. exact Hhas.
      - apply has_strip_own. }
    destruct (List.length _ =? 0)%nat; inversion Hpass; subst body'; simpl.
    + unfold Props.has at 1. rewrite PropsFacts.lookup_delete.
      destruct ("response_format" =? k)%string; [discriminate|].
      apply Hset.
    + apply Hset.
  - intros k Hk Hnull. simpl in Hnull.
    apply (cloudflare_pass_keeps_other_fields kind ps body' k Hpass Hk).
    destruct (Props.get ps k); simpl; try reflexivity.
    contradiction Hnull; reflexivity.
Qed.

(** ** Model names, further *)

Lemma lookup_in (k : string) (ps : props) (v : value) :
  Props.lookup k ps = Some v -> In (k, v) ps.
Proof.
  induction ps as [|[k0 v0] rest IH]; simpl; [discriminate|].
  destruct (k0 =? k)%string eqn:E.
  - apply String.eqb_eq in E; subst k0. intros H; inversion H. left. reflexivity.
  - intros H. right. exact (IH H).
Qed.

(** X8: where the model name comes from.  A key with a truthy own
    entry in [modelMapping] resolves to that entry.  A key with a falsy
    own entry, such as the empty string, or with no own entry resolves
    to the value of the first entry ([undefined] for an empty mapping),
    unless the key, having no own entry, is the name of a member every
    object inherits: then the name is that member.  So the name is
    [undefined], a value of the mapping, or an inherited member. *)
Theorem model_name_comes_from_the_mapping
    (cfg : config) (normalizedOptions : normalized_options) :
  let key := to_string (model normalizedOptions) in
  let modelName := resolve_model cfg normalizedOptions in
  let first := match modelMapping cfg with
               | (_, v) :: _ => v
               | [] => VUndefined
               end in
  (forall v,
     Props.lookup key (modelMapping cfg) = Some v ->
     modelName = if truthy v then v else first)
  /\ (Props.lookup key (modelMapping cfg) = None ->
      Props.lookup key object_prototype = None ->
      modelName = first)
  /\ (forall m,
        Props.lookup key (modelMapping cfg) = None ->
        Props.lookup key object_prototype = Some m ->
        modelName = m)
  /\ (modelName = VUndefined
      \/ (exists k, In (k, modelName) (modelMapping cfg))
      \/ (exists k, In (k, modelName) object_prototype)).
Proof.
  intros key modelName first. subst modelName. unfold resolve_model.
  assert (Hfirst :
    first = VUndefined \/ exists k, In (k, first) (modelMapping cfg)).
  { subst first. destruct (modelMapping cfg) as [|[k v] rest].
    - left. reflexivity.
    - right. exists k. left. reflexivity. }
  split; [|split; [|split]].
  - intros v Hfound. apply lookup_or_first_found. exact Hfound.
  - intros Hnone Hplain. apply lookup_or_first_fallback; assumption.
  - intros m Hnone Hinherited.
    apply lookup_or_first_inherited; assumption.
  - destruct (Props.lookup key (modelMapping cfg)) as [v|] eqn:Hfound.
    + rewrite (lookup_or_first_found _ _ _ Hfound).
      destruct (truthy v).
      * right. left. exists key. exact (lookup_in _ _ _ Hfound).
      * destruct Hfirst as [H|H]; [left; exact H | right; left; exact H].
    + destruct (Props.lookup key object_prototype) as [m|] eqn:Hinherited.
      * rewrite (lookup_or_first_inherited _ _ _ Hfound Hinherited).
        right. right. exists key. exact (lookup_in _ _ _ Hinherited).
      * rewrite (lookup_or_first_fallback _ _ Hfound Hinherited).
        destruct Hfirst as [H|H]; [left; exact H | right; left; exact H].
Qed.


(** * The affiliate mapper *)

Lemma trim_empty : trim "" = "".
Proof. reflexivity. Qed.

Section MapperFacts.

Variable affiliatesData : list Ads.affiliate.
Variable affiliateMarkdown : string.
Variable generateTextPortkey : value -> outcome value.

Lemma find_affiliate_in (x : string) (a : Ads.affiliate) :
  Ads.find_affiliate affiliatesData x = Some a ->
  In a affiliatesData /\ Ads.id a = x.
Proof.
  unfold Ads.find_affiliate. intros H. apply find_some in H.
  destruct H as (Hin & Hid). split; [exact Hin|].
  apply String.eqb_eq. exact Hid.
Qed.

Lemma kofi_or_null_in (randomValue percentage : Z) (a : Ads.affiliate) :
  Ads.kofi_or_null affiliatesData randomValue percentage = Some a ->
  In a affiliatesData /\ randomValue < percentage.
Proof.
  unfold Ads.kofi_or_null.
  destruct (randomValue <? percentage) eqn:E; [|discriminate].
  intros H. split; [exact (proj1 (find_affiliate_in _ _ H))|].
  apply Z.ltb_lt. exact E.
Qed.

(** What the body of the [try] returns: a fallback, or the affiliate
    whose id is the first word of the answer. *)
Lemma ask_llm_some (combinedContent : string) (randomValue : Z)
    (a : Ads.affiliate) :
  Ads.ask_llm affiliatesData affiliateMarkdown generateTextPortkey
    combinedContent randomValue = Ok (Some a) ->
  (In a affiliatesData /\ randomValue < 30)
  \/ exists completion answer,
       generateTextPortkey
         (Ads.user_prompt
            (Ads.affiliate_prompt affiliateMarkdown combinedContent))
       = Ok completion
       /\ Ads.completion_text completion = Ok (VStr answer)
       /\ Ads.match_word answer None = Some (Ads.id a)
       /\ In a affiliatesData.
Proof.
  unfold Ads.ask_llm.
  destruct (generateTextPortkey _) as [completion|e] eqn:Hgen;
    simpl; [|discriminate].
  destruct (Ads.completion_text completion) as [response|e] eqn:Htext;
    simpl; [|discriminate].
  assert (Hten : Ok (Ads.kofi_or_null affiliatesData randomValue 10)
                 = Ok (Some a) ->
                 In a affiliatesData /\ randomValue < 30).
  { intros H. inversion H as [H'].
    destruct (kofi_or_null_in _ _ _ H') as (Hin & Hlt). split; [exact Hin | lia]. }
  destruct response as [| |b|n|answer|kind ps|fname]; try (intros H; left; exact (Hten H)).
  destruct ((answer =? "")%string || (toLowerCase answer =? "none")%string);
    [intros H; left; exact (Hten H)|].
  destruct (Ads.match_word answer None) as [affiliateId|] eqn:Hword;
    [|intros H; left; exact (Hten H)].
  destruct (Ads.find_affiliate affiliatesData affiliateId) as [found|] eqn:Hfind.
  - intros H. inversion H; subst found.
    destruct (find_affiliate_in _ _ Hfind) as (Hin & Hid).
    right. exists completion, answer. rewrite Hid. auto.
  - intros H. inversion H as [H']. left.
    exact (kofi_or_null_in _ _ _ H').
Qed.

(** X10: an affiliate the mapper returns is an entry of the table. *)
Theorem found_affiliate_is_in_the_table
    (content : string) (messages : list value) (randomValue : Z)
    (a : Ads.affiliate) :
  Ads.findRelevantAffiliate affiliatesData affiliateMarkdown
    generateTextPortkey content messages randomValue = Ok (Some a) ->
  In a affiliatesData.
Proof.
  unfold Ads.findRelevantAffiliate.
  destruct (Ads.combined_content content messages) as [c|e];
    simpl; [|discriminate].
  destruct ((c =? "")%string || (trim c =? "")%string); [discriminate|].
  destruct (List.length _ =? 0)%nat; [discriminate|].
  destruct (Ads.ask_llm _ _ _ c randomValue) as [found|e] eqn:Hask.
  - intros H. inversion H; subst found.
    destruct (ask_llm_some _ _ _ Hask) as [(Hin & _) | (_ & _ & _ & _ & _ & Hin)];
      exact Hin.
  - intros H. inversion H as [H']. exact (proj1 (kofi_or_null_in _ _ _ H')).
Qed.

(** With one affiliate in the table that is not NSFW, the list of
    eligible affiliates is never empty. *)
Lemma eligible_nonempty (combinedContent : string) :
  (exists safe, In safe affiliatesData /\ Ads.nsfw safe = false) ->
  (List.length (Ads.eligible_affiliates affiliatesData combinedContent) =? 0)%nat
  = false.
Proof.
  intros (safe & Hin & Hsafe). unfold Ads.eligible_affiliates.
  apply Nat.eqb_neq.
  destruct (_ && _).
  - assert (Hf : In safe (filter (fun a => negb (Ads.nsfw a)) affiliatesData))
      by (apply filter_In; split; [exact Hin | rewrite Hsafe; reflexivity]).
    destruct (filter _ affiliatesData); [contradiction | simpl; lia].
  - destruct affiliatesData; [contradiction | simpl; lia].
Qed.

Lemma not_blank (c : string) :
  trim c <> "" ->
  ((c =? "")%string || (trim c =? "")%string) = false.
Proof.
  intros H. apply orb_false_iff. split; apply String.eqb_neq.
  - intros Hc. subst c. apply H. exact trim_empty.
  - exact H.
Qed.

(** X11: the NSFW filter does not restrict the answer.  With content
    that is not blank and a table holding some affiliate that is not
    NSFW, the affiliate whose id is the first word of the LLM's answer is
    returned, whatever its [nsfw] flag and whatever the content says. *)
Theorem nsfw_filter_does_not_restrict_the_answer
    (content : string) (messages : list value) (randomValue : Z)
    (combinedContent answer : string) (completion : value)
    (a : Ads.affiliate) :
  (exists safe, In safe affiliatesData /\ Ads.nsfw safe = false) ->
  Ads.combined_content content messages = Ok combinedContent ->
  trim combinedContent <> "" ->
  generateTextPortkey
    (Ads.user_prompt (Ads.affiliate_prompt affiliateMarkdown combinedContent))
  = Ok completion ->
  Ads.completion_text completion = Ok (VStr answer) ->
  answer <> "" ->
  toLowerCase answer <> "none" ->
  Ads.match_word answer None = Some (Ads.id a) ->
  Ads.find_affiliate affiliatesData (Ads.id a) = Some a ->
  Ads.findRelevantAffiliate affiliatesData affiliateMarkdown
    generateTextPortkey content messages randomValue = Ok (Some a).
Proof.
  intros Hsafe Hc Hblank Hgen Htext Hanswer Hnone Hword Hfind.
  unfold Ads.findRelevantAffiliate. rewrite Hc. simpl.
  rewrite (not_blank _ Hblank), (eligible_nonempty _ Hsafe).
  unfold Ads.ask_llm. rewrite Hgen. simpl. rewrite Htext. simpl.
  apply String.eqb_neq in Hanswer, Hnone. rewrite Hanswer, Hnone. simpl.
  rewrite Hword, Hfind. reflexivity.
Qed.

(** A completion without [choices] has no text to read. *)
Lemma completion_text_without_choices (completion : value) :
  nullish (get_prop completion "choices") = true ->
  exists e, Ads.completion_text completion = Throw e.
Proof.
  intros H. unfold Ads.completion_text.
  destruct completion as [| |b|n|s|kind ps|fname]; simpl in *; eauto;
    destruct (Props.get ps "choices"); simpl in *; eauto; discriminate.
Qed.

(** X12: when the text client throws, or answers with a value that has
    no [choices] (an error response), the mapper returns the ko-fi entry
    if [randomValue] is below 30 and [null] otherwise. *)
Theorem llm_failure_falls_back_to_kofi
    (content : string) (messages : list value) (randomValue : Z)
    (combinedContent : string) :
  (exists safe, In safe affiliatesData /\ Ads.nsfw safe = false) ->
  Ads.combined_content content messages = Ok combinedContent ->
  trim combinedContent <> "" ->
  (exists e,
     generateTextPortkey
       (Ads.user_prompt (Ads.affiliate_prompt affiliateMarkdown combinedContent))
     = Throw e)
  \/ (exists completion,
        generateTextPortkey
          (Ads.user_prompt
             (Ads.affiliate_prompt affiliateMarkdown combinedContent))
        = Ok completion
        /\ nullish (get_prop completion "choices") = true) ->
  Ads.findRelevantAffiliate affiliatesData affiliateMarkdown
    generateTextPortkey content messages randomValue
  = Ok (if randomValue <? 30
        then Ads.find_affiliate affiliatesData "kofi"
        else None).
Proof.
  intros Hsafe Hc Hblank Hfail.
  unfold Ads.findRelevantAffiliate. rewrite Hc. simpl.
  rewrite (not_blank _ Hblank), (eligible_nonempty _ Hsafe).
  unfold Ads.ask_llm.
  destruct Hfail as [(e & Hgen) | (completion & Hgen & Hchoices)];
    rewrite Hgen; simpl; [reflexivity|].
  destruct (completion_text_without_choices _ Hchoices) as (e & Htext).
  rewrite Htext. reflexivity.
Qed.

(** X13: without luck, only the named affiliate.  When [randomValue] is
    30 or more, an affiliate is returned only if the text client
    answered and the first word of its answer is that affiliate's
    id. *)
Theorem without_luck_only_the_named_affiliate
    (content : string) (messages : list value) (randomValue : Z)
    (a : Ads.affiliate) :
  30 <= randomValue ->
  Ads.findRelevantAffiliate affiliatesData affiliateMarkdown
    generateTextPortkey content messages randomValue = Ok (Some a) ->
  exists combinedContent completion answer,
    Ads.combined_content content messages = Ok combinedContent
    /\ generateTextPortkey
         (Ads.user_prompt
            (Ads.affiliate_prompt affiliateMarkdown combinedContent))
       = Ok completion
    /\ Ads.completion_text completion = Ok (VStr answer)
    /\ Ads.match_word answer None = Some (Ads.id a).
Proof.
  intros Hluck. unfold Ads.findRelevantAffiliate.
  destruct (Ads.combined_content content messages) as [c|e];
    simpl; [|discriminate].
  destruct ((c =? "")%string || (trim c =? "")%string); [discriminate|].
  destruct (List.length _ =? 0)%nat; [discriminate|].
  destruct (Ads.ask_llm _ _ _ c randomValue) as [found|e] eqn:Hask.
  - intros H. inversion H; subst found.
    destruct (ask_llm_some _ _ _ Hask)
      as [(_ & Hlt) | (completion & answer & Hgen & Htext & Hword & _)];
      [lia|].
    exists c, completion, answer. auto.
  - intros H. inversion H as [H'].
    destruct (kofi_or_null_in _ _ _ H') as (_ & Hlt). lia.
Qed.

End MapperFacts.

(** ** The ad text *)

Lemma strip_prefix_app (p s : string) : strip_prefix p (p ++ s) = Some s.
Proof.
  induction p as [|c p IH]; simpl; [reflexivity|].
  rewrite Ascii.eqb_refl. exact IH.
Qed.

Lemma append_assoc (a b c : string) : (a ++ b) ++ c = a ++ b ++ c.
Proof.
  induction a as [|x a IH]; simpl; [reflexivity | rewrite IH; reflexivity].
Qed.

Lemma all_chars_app (p : ascii -> bool) (a b : string) :
  all_chars p (a ++ b) = all_chars p a && all_chars p b.
Proof.
  induction a as [|c a IH]; simpl; [reflexivity|].
  rewrite IH, andb_assoc. reflexivity.
Qed.

(** The first occurrence of a pattern that starts with [c], after a
    text without [c]. *)
Lemma split_at_first_after (c : ascii) (pat before after : string) :
  all_chars (Ads.not_char c) before = true ->
  split_at_first (String c pat) (before ++ String c pat ++ after)
  = Some (before, after).
Proof.
  intros Hfree. induction before as [|b before IH].
  - simpl. rewrite Ascii.eqb_refl, strip_prefix_app. reflexivity.
  - simpl in Hfree. apply andb_true_iff in Hfree. destruct Hfree as (Hb & Hfree).
    change (split_at_first (String c pat)
              (String b (before ++ String c pat ++ after))
            = Some (String b before, after)).
    unfold split_at_first; fold split_at_first.
    unfold strip_prefix at 1; fold strip_prefix.
    unfold Ads.not_char in Hb. apply negb_true_iff in Hb.
    rewrite Ascii.eqb_sym, Hb. rewrite (IH Hfree). reflexivity.
Qed.

Lemma split_at_first_none (c : ascii) (pat s : string) :
  all_chars (Ads.not_char c) s = true ->
  split_at_first (String c pat) s = None.
Proof.
  induction s as [|b s IH]; intros Hfree.
  - reflexivity.
  - simpl in Hfree. apply andb_true_iff in Hfree. destruct Hfree as (Hb & Hfree).
    unfold split_at_first; fold split_at_first.
    unfold strip_prefix at 1; fold strip_prefix.
    unfold Ads.not_char in Hb. apply negb_true_iff in Hb.
    rewrite Ascii.eqb_sym, Hb, (IH Hfree). reflexivity.
Qed.

(** A replacement text without dollar stands for itself. *)
Lemma substitution_plain (repl matched before after : string) :
  all_chars (Ads.not_char "$") repl = true ->
  substitution repl matched before after = repl.
Proof.
  induction repl as [|c repl IH]; intros Hfree; [reflexivity|].
  simpl in Hfree. apply andb_true_iff in Hfree. destruct Hfree as (Hc & Hfree).
  unfold Ads.not_char in Hc. apply negb_true_iff in Hc.
  simpl. rewrite Hc, (IH Hfree). reflexivity.
Qed.

Section AdFacts.

Variable affiliatesData : list Ads.affiliate.
Variable generateTextPortkey : value -> outcome value.

(** X14: an ad is generated for every known affiliate.  The result is
    [null] exactly when the id is empty or not in the table; every ad
    starts with the separator [\n\n---\n]; and when the text is not
    translated, the content being blank or the translator failing, the
    ad is the separator followed by the affiliate's own text. *)
Theorem ad_is_generated_for_every_known_affiliate
    (affiliateId content : string) :
  let ad := Ads.generateAffiliateAd affiliatesData generateTextPortkey
              affiliateId content in
  let separator := Ads.nl ++ Ads.nl ++ "---" ++ Ads.nl in
  (ad = None
   <-> affiliateId = ""
       \/ Ads.find_affiliate affiliatesData affiliateId = None)
  /\ (forall text, ad = Some text -> startsWith separator text = true)
  /\ (forall a,
        affiliateId <> "" ->
        Ads.find_affiliate affiliatesData affiliateId = Some a ->
        trim content = ""
        \/ (exists e,
              generateTextPortkey
                (Ads.user_prompt
                   (Ads.translation_prompt content
                      (Ads.base_ad_text a affiliateId)))
              = Throw e) ->
        ad = Some (separator ++ Ads.base_ad_text a affiliateId)).
Proof.
  intros ad separator. subst ad separator.
  unfold Ads.generateAffiliateAd.
  destruct (affiliateId =? "")%string eqn:Hid.
  - apply String.eqb_eq in Hid. split; [|split].
    + split; auto.
    + discriminate.
    + intros a Hne. contradiction.
  - apply String.eqb_neq in Hid.
    destruct (Ads.find_affiliate affiliatesData affiliateId) as [a|] eqn:Hfind.
    + split; [|split].
      * split; [discriminate|]. intros [H|H]; [contradiction | discriminate].
      * intros text H. inversion H. reflexivity.
      * intros a' _ Ha' Hplain. inversion Ha'; subst a'.
        unfold Ads.localized_ad_text.
        destruct Hplain as [Hblank | (e & Hthrow)].
        -- rewrite Hblank. simpl. rewrite andb_false_r. reflexivity.
        -- rewrite Hthrow. simpl.
           destruct (negb (content =? "")%string && negb (trim content =? "")%string);
             reflexivity.
    + split; [|split].
      * split; auto.
      * discriminate.
      * discriminate.
Qed.

End AdFacts.

Lemma upper_ascii_colon (c : ascii) :
  Ascii.eqb ":" (upper_ascii c) = Ascii.eqb c ":".
Proof.
  destruct c as [[] [] [] [] [] [] [] []]; reflexivity.
Qed.

Lemma upper_ascii_letter (x c : ascii) :
  Ascii.eqb x ":" = false ->
  Ascii.eqb x (upper_ascii c) = true ->
  Ascii.eqb c ":" = false.
Proof.
  intros Hx Hup. destruct (Ascii.eqb c ":") eqn:Hc; [|reflexivity].
  apply Ascii.eqb_eq in Hc. subst c. apply Ascii.eqb_eq in Hup. subst x.
  discriminate Hx.
Qed.

(** An answer whose upper case starts with [p:], [p] without colon,
    has its first colon right after the length of [p]. *)
Lemma first_colon_after_prefix (p s : string) :
  all_chars (Ads.not_char ":") p = true ->
  startsWith (p ++ ":") (toUpperCase s) = true ->
  indexOf ":" s = Some (String.length p).
Proof.
  unfold startsWith. revert s. induction p as [|x p IH]; intros s Hfree Hstart.
  - destruct s as [|c rest]; [discriminate|].
    cbn [append strip_prefix toUpperCase] in Hstart.
    rewrite upper_ascii_colon in Hstart.
    cbn [indexOf]. destruct (Ascii.eqb c ":"); [reflexivity | discriminate].
  - destruct s as [|c rest]; [discriminate|].
    cbn [append strip_prefix toUpperCase] in Hstart.
    cbn [all_chars] in Hfree. apply andb_true_iff in Hfree.
    destruct Hfree as (Hx & Hfree).
    unfold Ads.not_char in Hx. apply negb_true_iff in Hx.
    destruct (Ascii.eqb x (upper_ascii c)) eqn:Hup; [|discriminate].
    cbn [indexOf String.length].
    rewrite (upper_ascii_letter x c Hx Hup), (IH rest Hfree Hstart).
    reflexivity.
Qed.

(** X15: the [ENGLISH:] case of the translator's answer is the general
    case: whatever the answer, the ad text is the trimmed text after its
    first colon when that colon is not the first character, and the
    answer itself otherwise. *)
Theorem english_answer_is_the_general_case (response : string) :
  Ads.translated_text response
  = match indexOf ":" response with
    | Some (S colonBefore) =>
        trim (substring_from (S (S colonBefore)) response)
    | _ => response
    end.
Proof.
  unfold Ads.translated_text.
  destruct (startsWith "ENGLISH:" (toUpperCase response)) eqn:Hen;
    [|reflexivity].
  rewrite (first_colon_after_prefix "ENGLISH" response eq_refl Hen).
  reflexivity.
Qed.

(** X16: the [{url}] of an affiliate's [ad_text] becomes the redirect
    link of the affiliate: for an id without dollar sign, a text
    [before{url}after] with no brace in [before] gives
    [before https://pollinations.ai/redirect/<id> after]; a text without
    brace is used as it is. *)
Theorem ad_text_placeholder_becomes_the_link
    (a : Ads.affiliate) (affiliateId before after : string) :
  all_chars (Ads.not_char "$") affiliateId = true ->
  all_chars (Ads.not_char "{") before = true ->
  (Ads.ad_text a = before ++ "{url}" ++ after ->
   Ads.base_ad_text a affiliateId
   = before ++ "https://pollinations.ai/redirect/" ++ affiliateId ++ after)
  /\ (Ads.ad_text a = before -> before <> "" ->
      Ads.base_ad_text a affiliateId = before).
Proof.
  intros Hid Hbefore. split.
  - intros Htext. unfold Ads.base_ad_text. rewrite Htext.
    assert (Hne : ((before ++ "{url}" ++ after) =? "")%string = false).
    { apply String.eqb_neq. destruct before; discriminate. }
    rewrite Hne. simpl negb. cbv iota.
    unfold replace.
    rewrite (split_at_first_after "{" "url}" before after Hbefore).
    rewrite substitution_plain.
    + unfold Ads.referral_link. rewrite append_assoc. reflexivity.
    + unfold Ads.referral_link. rewrite all_chars_app, Hid. reflexivity.
  - intros Htext Hne. unfold Ads.base_ad_text. rewrite Htext.
    apply String.eqb_neq in Hne. rewrite Hne. simpl negb. cbv iota.
    unfold replace.
    rewrite (split_at_first_none "{" "url}" before Hbefore). reflexivity.
Qed.

(** ** Referral links *)

Lemma span_spec (p : ascii -> bool) (s : string) :
  s = fst (span p s) ++ snd (span p s)
  /\ all_chars p (fst (span p s)) = true.
Proof.
  induction s as [|c s IH]; simpl; [split; reflexivity|].
  destruct (p c) eqn:Hc; [|split; reflexivity].
  destruct (span p s) as [run rest]. simpl in *.
  destruct IH as (Hs & Hall). split.
  - rewrite <- Hs. reflexivity.
  - rewrite Hc, Hall. reflexivity.
Qed.

Lemma span_app (p : ascii -> bool) (a b : string) :
  all_chars p a = true ->
  stops p b = true ->
  span p (a ++ b) = (a, b).
Proof.
  intros Ha Hb. induction a as [|c a IH]; simpl.
  - destruct b as [|d b]; [reflexivity|].
    simpl in Hb. apply negb_true_iff in Hb. simpl. rewrite Hb. reflexivity.
  - simpl in Ha. apply andb_true_iff in Ha. destruct Ha as (Hc & Ha).
    rewrite Hc, (IH Ha). reflexivity.
Qed.

(** What a match holds: a link text that is not empty and has no
    closing bracket, and an id that is not empty and alphanumeric. *)
Lemma match_link_some (s linkText affiliateId after_match : string) :
  Ads.match_link s = Some (linkText, affiliateId, after_match) ->
  (linkText <> "" /\ all_chars (Ads.not_char "]") linkText = true)
  /\ (affiliateId <> "" /\ all_chars is_alnum affiliateId = true).
Proof.
  unfold Ads.match_link.
  destruct s as [|c rest]; [discriminate|].
  destruct (Ascii.eqb c "["); [|discriminate].
  pose proof (span_spec (Ads.not_char "]") rest) as (_ & Htext).
  destruct (span (Ads.not_char "]") rest) as [text after_text].
  destruct (text =? "")%string eqn:Hne; [discriminate|].
  destruct (strip_prefix _ after_text) as [after_url|]; [|discriminate].
  pose proof (span_spec is_alnum after_url) as (_ & Hid).
  destruct (span is_alnum after_url) as [i after_id].
  destruct (i =? "")%string eqn:Hine; [discriminate|].
  destruct (span (Ads.not_char ")") after_id) as [tail after_tail].
  destruct after_tail; [discriminate|].
  intros H. inversion H; subst.
  apply String.eqb_neq in Hne, Hine. simpl in *. auto.
Qed.

Lemma scan_links_forall (P : string * string -> Prop) :
  (forall s linkText affiliateId after_match,
     Ads.match_link s = Some (linkText, affiliateId, after_match) ->
     P (linkText, affiliateId)) ->
  forall s skip, Forall P (Ads.scan_links s skip).
Proof.
  intros HP. induction s as [|c s IH]; intros skip; cbn [Ads.scan_links].
  - constructor.
  - destruct skip as [|skip']; [|apply IH].
    destruct (Ads.match_link (String c s)) as [[[linkText affiliateId] after_match]|]
      eqn:Hm; [|apply IH].
    constructor; [exact (HP _ _ _ _ Hm) | apply IH].
Qed.

(** X17: what [extractReferralLinkInfo] reports is consistent: the
    count is the number of link texts and of ids, every id is a
    non-empty alphanumeric word (so the guard of line 291 always holds
    and [affiliateIds] is [topicsOrIds]), every link text is non-empty
    and has no closing bracket, and the two strings are the comma-joined
    lists. *)
Theorem referral_info_is_consistent (content : string) :
  let info := Ads.extractReferralLinkInfo content in
  Ads.linkCount info = List.length (Ads.linkTexts info)
  /\ Ads.linkCount info = List.length (Ads.topicsOrIds info)
  /\ Ads.affiliateIds info = Ads.topicsOrIds info
  /\ Forall (fun i => i <> "" /\ all_chars is_alnum i = true)
       (Ads.topicsOrIds info)
  /\ Forall (fun t => t <> "" /\ all_chars (Ads.not_char "]") t = true)
       (Ads.linkTexts info)
  /\ Ads.linkTextsString info = join "," (Ads.linkTexts info)
  /\ Ads.topicsOrIdsString info = join "," (Ads.topicsOrIds info).
Proof.
  intros info. subst info. unfold Ads.extractReferralLinkInfo.
  set (found := if (content =? "")%string then [] else Ads.scan_links content O).
  cbn [Ads.linkCount Ads.linkTexts Ads.topicsOrIds Ads.affiliateIds
       Ads.linkTextsString Ads.topicsOrIdsString].
  assert (Hfound :
    Forall (fun m : string * string =>
              (fst m <> "" /\ all_chars (Ads.not_char "]") (fst m) = true)
              /\ (snd m <> "" /\ all_chars is_alnum (snd m) = true))
      found).
  { unfold found. destruct (content =? "")%string; [constructor|].
    apply scan_links_forall.
    intros s linkText affiliateId after_match Hm.
    exact (match_link_some _ _ _ _ Hm). }
  assert (Hids :
    Forall (fun i => i <> "" /\ all_chars is_alnum i = true) (map snd found)).
  { apply Forall_map. eapply Forall_impl; [|exact Hfound].
    intros m (_ & H). exact H. }
  split; [rewrite length_map; reflexivity|].
  split; [rewrite length_map; reflexivity|].
  split.
  { clear Hfound. induction (map snd found) as [|i ids IH]; [reflexivity|].
    inversion Hids as [|? ? (Hne & _) Hrest]; subst.
    simpl. apply String.eqb_neq in Hne. rewrite Hne. simpl.
    rewrite (IH Hrest). reflexivity. }
  split; [exact Hids|].
  split; [|split; reflexivity].
  apply Forall_map. eapply Forall_impl; [|exact Hfound].
  intros m (H & _). exact H.
Qed.

Lemma length_app_string (a b : string) :
  String.length (a ++ b) = (String.length a + String.length b)%nat.
Proof.
  induction a as [|c a IH]; simpl; [reflexivity | rewrite IH; reflexivity].
Qed.

(** Skipping the characters of the match before. *)
Lemma scan_links_skip (a b : string) :
  Ads.scan_links (a ++ b) (String.length a) = Ads.scan_links b O.
Proof.
  induction a as [|c a IH]; [reflexivity|]. exact IH.
Qed.

Lemma match_link_not_bracket (c : ascii) (s : string) :
  Ads.not_char "[" c = true -> Ads.match_link (String c s) = None.
Proof.
  unfold Ads.not_char. intros H. apply negb_true_iff in H.
  unfold Ads.match_link. rewrite H. reflexivity.
Qed.

(** No match starts in a text without opening bracket. *)
Lemma scan_links_free (pre s : string) :
  all_chars (Ads.not_char "[") pre = true ->
  Ads.scan_links (pre ++ s) O = Ads.scan_links s O.
Proof.
  intros Hfree. induction pre as [|c pre IH]; [reflexivity|].
  simpl in Hfree. apply andb_true_iff in Hfree. destruct Hfree as (Hc & Hfree).
  change (Ads.scan_links (String c (pre ++ s)) O = Ads.scan_links s O).
  cbn [Ads.scan_links]. rewrite (match_link_not_bracket c _ Hc).
  exact (IH Hfree).
Qed.

Lemma scan_links_free_nil (s : string) :
  all_chars (Ads.not_char "[") s = true -> Ads.scan_links s O = [].
Proof.
  intros Hfree. induction s as [|c s IH]; [reflexivity|].
  simpl in Hfree. apply andb_true_iff in Hfree. destruct Hfree as (Hc & Hfree).
  cbn [Ads.scan_links]. rewrite (match_link_not_bracket c _ Hc).
  exact (IH Hfree).
Qed.

(** The match at a well-formed referral link. *)
Lemma match_link_at_link (text affiliateId tail post : string) :
  text <> "" ->
  all_chars (Ads.not_char "]") text = true ->
  affiliateId <> "" ->
  all_chars is_alnum affiliateId = true ->
  all_chars (Ads.not_char ")") tail = true ->
  stops is_alnum tail = true ->
  Ads.match_link
    ("[" ++ text ++ "](https://pollinations.ai/referral/" ++ affiliateId
     ++ tail ++ ")" ++ post)
  = Some (text, affiliateId, post).
Proof.
  intros Htext Htext_free Hid Hid_alnum Htail Hstops.
  change ("[" ++ text ++ "](https://pollinations.ai/referral/" ++ affiliateId
          ++ tail ++ ")" ++ post)
    with (String "[" (text ++ "](https://pollinations.ai/referral/"
                      ++ affiliateId ++ tail ++ ")" ++ post)).
  unfold Ads.match_link. rewrite Ascii.eqb_refl.
  rewrite (span_app (Ads.not_char "]") text
             ("](https://pollinations.ai/referral/" ++ affiliateId
              ++ tail ++ ")" ++ post) Htext_free eq_refl).
  apply String.eqb_neq in Htext. rewrite Htext.
  rewrite strip_prefix_app.
  assert (Hnext : stops is_alnum (tail ++ ")" ++ post) = true)
    by (destruct tail; [reflexivity | exact Hstops]).
  rewrite (span_app is_alnum affiliateId _ Hid_alnum Hnext).
  apply String.eqb_neq in Hid. rewrite Hid.
  rewrite (span_app (Ads.not_char ")") tail (")" ++ post) Htail eq_refl).
  reflexivity.
Qed.

(** X18: one referral link is read back.  In a content with one
    markdown link to [https://pollinations.ai/referral/<id>], possibly
    with a query behind the id, and no other opening bracket, the
    extractor finds exactly that link: its text and its id. *)
Theorem referral_link_is_read_back
    (pre text affiliateId tail post : string) :
  all_chars (Ads.not_char "[") pre = true ->
  text <> "" ->
  all_chars (Ads.not_char "]") text = true ->
  affiliateId <> "" ->
  all_chars is_alnum affiliateId = true ->
  all_chars (Ads.not_char ")") tail = true ->
  stops is_alnum tail = true ->
  all_chars (Ads.not_char "[") post = true ->
  Ads.extractReferralLinkInfo
    (pre ++ "[" ++ text ++ "](https://pollinations.ai/referral/"
     ++ affiliateId ++ tail ++ ")" ++ post)
  = {| Ads.linkCount := 1;
       Ads.linkTexts := [text];
       Ads.linkTextsString := text;
       Ads.topicsOrIds := [affiliateId];
       Ads.topicsOrIdsString := affiliateId;
       Ads.affiliateIds := [affiliateId] |}.
Proof.
  intros Hpre Htext Htext_free Hid Hid_alnum Htail Hstops Hpost.
  unfold Ads.extractReferralLinkInfo.
  set (link := "[" ++ text ++ "](https://pollinations.ai/referral/"
               ++ affiliateId ++ tail ++ ")" ++ post).
  assert (Hne : ((pre ++ link) =? "")%string = false).
  { apply String.eqb_neq. destruct pre; discriminate. }
  rewrite Hne, (scan_links_free pre link Hpre).
  assert (Hscan : Ads.scan_links link O = [(text, affiliateId)]).
  { pose proof (match_link_at_link text affiliateId tail post
                  Htext Htext_free Hid Hid_alnum Htail Hstops) as Hm.
    fold link in Hm.
    set (inside := text ++ "](https://pollinations.ai/referral/"
                   ++ affiliateId ++ tail ++ ")").
    assert (Hlink : link = String "[" (inside ++ post)).
    { unfold link, inside. rewrite !append_assoc. reflexivity. }
    rewrite Hlink in *. cbn [Ads.scan_links]. rewrite Hm.
    rewrite length_app_string.
    replace (String.length inside + String.length post - String.length post)%nat
      with (String.length inside) by lia.
    rewrite scan_links_skip, (scan_links_free_nil post Hpost). reflexivity. }
  rewrite Hscan. simpl.
  apply String.eqb_neq in Hid. rewrite Hid. reflexivity.
Qed.

(** A markdown link to the redirect address is not a referral link. *)
Lemma redirect_link_no_match (affiliateId : string) :
  Ads.match_link
    (String "[" ("Learn more" ++ "](https://pollinations.ai/redirect/"
                 ++ affiliateId ++ ")"))
  = None.
Proof.
  unfold Ads.match_link. rewrite Ascii.eqb_refl.
  rewrite (span_app (Ads.not_char "]") "Learn more"
             ("](https://pollinations.ai/redirect/" ++ affiliateId ++ ")")
             eq_refl eq_refl).
  reflexivity.
Qed.

Lemma scan_links_step (c : ascii) (rest : string) :
  Ads.scan_links (String c rest) O
  = match Ads.match_link (String c rest) with
    | Some (linkText, affiliateId, after_match) =>
        (linkText, affiliateId)
        :: Ads.scan_links rest (String.length rest - String.length after_match)
    | None => Ads.scan_links rest O
    end.
Proof. reflexivity. Qed.

Lemma no_referral_in_redirect_link (pre affiliateId : string) :
  all_chars (Ads.not_char "[") pre = true ->
  all_chars (Ads.not_char "[") affiliateId = true ->
  Ads.scan_links
    (pre ++ String "[" ("Learn more" ++ "](https://pollinations.ai/redirect/"
                        ++ affiliateId ++ ")")) O
  = [].
Proof.
  intros Hpre Hid. rewrite (scan_links_free pre _ Hpre).
  rewrite scan_links_step, redirect_link_no_match.
  apply scan_links_free_nil.
  rewrite !all_chars_app, Hid. reflexivity.
Qed.

(** The ad of lines 177-185 and 244, cut before its link. *)
Lemma ad_shape (subject affiliateId : string) :
  Ads.nl ++ Ads.nl ++ "---" ++ Ads.nl ++ subject ++ " [Learn more]("
  ++ Ads.referral_link affiliateId ++ ")"
  = (Ads.nl ++ Ads.nl ++ "---" ++ Ads.nl ++ subject ++ " ")
    ++ String "[" ("Learn more" ++ "](https://pollinations.ai/redirect/"
                   ++ affiliateId ++ ")").
Proof.
  unfold Ads.referral_link. rewrite !append_assoc. reflexivity.
Qed.

Section AdLinks.

Variable affiliatesData : list Ads.affiliate.
Variable generateTextPortkey : value -> outcome value.

(** The ad when the text is not translated. *)
Lemma untranslated_ad (affiliateId content : string) (a : Ads.affiliate) :
  affiliateId <> "" ->
  Ads.find_affiliate affiliatesData affiliateId = Some a ->
  trim content = ""
  \/ (exists e,
        generateTextPortkey
          (Ads.user_prompt
             (Ads.translation_prompt content
                (Ads.base_ad_text a affiliateId)))
        = Throw e) ->
  Ads.generateAffiliateAd affiliatesData generateTextPortkey
    affiliateId content
  = Some (Ads.nl ++ Ads.nl ++ "---" ++ Ads.nl
          ++ Ads.base_ad_text a affiliateId).
Proof.
  intros Hid Hfind Hplain. unfold Ads.generateAffiliateAd.
  apply String.eqb_neq in Hid. rewrite Hid, Hfind.
  unfold Ads.localized_ad_text.
  destruct Hplain as [Hblank | (e & Hthrow)].
  - rewrite Hblank. simpl. rewrite andb_false_r. reflexivity.
  - rewrite Hthrow. simpl.
    destruct (negb (content =? "")%string && negb (trim content =? "")%string);
      reflexivity.
Qed.

(** X19: the ads the mapper writes hold no referral link.  Take an
    affiliate without [ad_text] whose description, product and name,
    like its id, hold no opening bracket, and an ad that is not
    translated.  The ad is the separator, the affiliate's text and
    [[Learn more](https://pollinations.ai/redirect/<id>)]; the
    expression of [extractReferralLinkInfo], written for
    [.../referral/<id>], does not match that link, and the extractor
    reports nothing on the ad.  (A bracket in the affiliate's own text
    could open a referral link of its own, which would be counted.) *)
Theorem generated_ad_holds_no_referral_link
    (affiliateId content : string) (a : Ads.affiliate) :
  affiliateId <> "" ->
  Ads.find_affiliate affiliatesData affiliateId = Some a ->
  Ads.ad_text a = "" ->
  all_chars (Ads.not_char "[") (Ads.description a) = true ->
  all_chars (Ads.not_char "[") (Ads.product a) = true ->
  all_chars (Ads.not_char "[") (Ads.name a) = true ->
  all_chars (Ads.not_char "[") affiliateId = true ->
  trim content = ""
  \/ (exists e,
        generateTextPortkey
          (Ads.user_prompt
             (Ads.translation_prompt content
                (Ads.base_ad_text a affiliateId)))
        = Throw e) ->
  let subject :=
    if negb (Ads.description a =? "")%string then Ads.description a
    else if negb (Ads.product a =? "")%string
         then "Learn more about " ++ Ads.product a
         else "Learn more about " ++ Ads.name a in
  let ad :=
    Ads.nl ++ Ads.nl ++ "---" ++ Ads.nl ++ subject
    ++ " [Learn more](https://pollinations.ai/redirect/" ++ affiliateId
    ++ ")" in
  Ads.generateAffiliateAd affiliatesData generateTextPortkey
    affiliateId content = Some ad
  /\ Ads.extractReferralLinkInfo ad
     = {| Ads.linkCount := 0;
          Ads.linkTexts := [];
          Ads.linkTextsString := "";
          Ads.topicsOrIds := [];
          Ads.topicsOrIdsString := "";
          Ads.affiliateIds := [] |}.
Proof.
  intros Hid Hfind Hadtext Hdesc Hprod Hname Hidfree Hplain subject ad.
  assert (Hsubject : all_chars (Ads.not_char "[") subject = true).
  { subst subject.
    destruct (negb (Ads.description a =? "")%string); [exact Hdesc|].
    destruct (negb (Ads.product a =? "")%string); rewrite all_chars_app;
      [rewrite Hprod | rewrite Hname]; reflexivity. }
  assert (Hbase :
    Ads.base_ad_text a affiliateId
    = subject ++ " [Learn more](" ++ Ads.referral_link affiliateId ++ ")").
  { unfold Ads.base_ad_text. rewrite Hadtext. simpl negb. cbv iota.
    subst subject.
    destruct (negb (Ads.description a =? "")%string); [reflexivity|].
    destruct (negb (Ads.product a =? "")%string);
      rewrite append_assoc; reflexivity. }
  assert (Had :
    ad = Ads.nl ++ Ads.nl ++ "---" ++ Ads.nl ++ subject ++ " [Learn more]("
         ++ Ads.referral_link affiliateId ++ ")")
    by reflexivity.
  assert (Hscan : Ads.scan_links ad O = []).
  { rewrite Had, ad_shape.
    apply no_referral_in_redirect_link; [|exact Hidfree].
    rewrite !all_chars_app, Hsubject. reflexivity. }
  split.
  - rewrite (untranslated_ad _ _ _ Hid Hfind Hplain), Hbase, Had.
    reflexivity.
  - unfold Ads.extractReferralLinkInfo. rewrite Hscan.
    destruct (ad =? "")%string; reflexivity.
Qed.

(** With a bracket in the affiliate's own text the ad can hold a
    referral link: this description brings one, and it is counted. *)
Example description_with_referral_link_is_counted :
  exists ad,
    Ads.generateAffiliateAd [AdSample.partner] AdSample.llm_down "partner" ""
    = Some ad
    /\ Ads.linkCount (Ads.extractReferralLinkInfo ad) = 1%nat.
Proof. eexists. split; vm_compute; reflexivity. Qed.

End AdLinks.


(** * The further properties at work on the samples *)

(** A streaming call over a transport that is down. *)
Lemma transport_failure_is_returned_witness :
  fst (client Sample.utils Scenario.unreachable Sample.mistral
         "req1" 1700000000123 Sample.messages Sample.streaming_options
         initial_world)
  = Ok (ErrorResponse
          (createErrorResponse Sample.utils
             {| name := "FetchError"; message := "connect ECONNREFUSED" |}
             "Mistral")).
Proof.
  erewrite (transport_failure_is_returned
              Sample.utils Scenario.unreachable Sample.mistral
              "req1" 1700000000123 Sample.messages Sample.streaming_options
              initial_world);
    reflexivity.
Defined.

(** Messages that are not an array. *)
Lemma validation_failure_is_returned_witness :
  client Sample.utils (Sample.answers Sample.bare_completion) Sample.mistral
    "req1" 1700000000123 (VStr "not-an-array") Sample.plain_options
    initial_world
  = (Ok (ErrorResponse
           (createErrorResponse Sample.utils
              (Error "Invalid messages: expected an array") "Mistral")),
     {| fetches := []; auth_calls := 1 |}).
Proof.
  exact (validation_failure_is_returned
           Sample.utils (Sample.answers Sample.bare_completion) Sample.mistral
           "req1" 1700000000123 (VStr "not-an-array") Sample.plain_options
           initial_world (VStr "Bearer sk-test")
           (Error "Invalid messages: expected an array")
           eq_refl eq_refl eq_refl).
Defined.

(** A 200 answer with the body [null], a formatter being configured. *)
Lemma unusable_payload_is_an_error_witness :
  exists e,
    name e = "TypeError"
    /\ fst (client Sample.utils (Sample.answers Scenario.null_completion)
              Sample.formatted "req1" 1700000000123
              Sample.messages Sample.plain_options initial_world)
       = Ok (ErrorResponse (createErrorResponse Sample.utils e "Mistral")).
Proof.
  destruct (proj2 (unusable_payload_is_an_error
                     Sample.utils (Sample.answers Scenario.null_completion)
                     Sample.formatted "req1" 1700000000123
                     Sample.messages Sample.plain_options initial_world
                     Scenario.null_completion _ eq_refl eq_refl eq_refl)
              VNull eq_refl (or_introl eq_refl))
    as (e & Hname & Hclient).
  exists e. split; [exact Hname|]. rewrite Hclient. reflexivity.
Defined.

(** Two event streams behind the same handle. *)
Lemma envelope_ignores_body_content_witness :
  exists envelope,
    fst (client Sample.utils (Sample.answers Sample.event_stream)
           Sample.mistral "req1" 1700000000123
           Sample.messages Sample.streaming_options initial_world)
    = Ok (Streaming envelope)
    /\ fst (client Sample.utils (Sample.answers Scenario.event_stream')
              Sample.mistral "req1" 1700000000123
              Sample.messages Sample.streaming_options initial_world)
       = Ok (Streaming envelope).
Proof.
  eexists. split; [reflexivity|].
  erewrite (envelope_ignores_body_content
              Sample.utils Sample.mistral
              (Sample.answers Sample.event_stream)
              (Sample.answers Scenario.event_stream')
              "req1" 1700000000123 Sample.messages Sample.streaming_options
              initial_world).
  - reflexivity.
  - intros sent. simpl. repeat split.
  - reflexivity.
Defined.

Lemma returned_envelope_shape_witness :
  exists envelope w',
    client Sample.utils (Sample.answers Sample.event_stream) Sample.mistral
      "req1" 1700000000123 Sample.messages Sample.streaming_options
      initial_world
    = (Ok (Streaming envelope), w')
    /\ Envelope.id envelope = "mistral-req1"
    /\ Envelope.created envelope = 1700000000
    /\ Envelope.responseStream envelope = 2%nat.
Proof.
  eexists. eexists. split; [reflexivity|].
  pose proof (returned_envelope_shape
                Sample.utils Sample.mistral (Sample.answers Sample.event_stream)
                "req1" 1700000000123 Sample.messages Sample.streaming_options
                initial_world _ _ eq_refl)
    as (Hid & _ & _ & _ & _ & Hcreated & _).
  split; [exact Hid|]. split; reflexivity.
Defined.

(** The second pass on a body with nulls, and again on its result. *)
Lemma cloudflare_pass_idempotent_witness :
  exists body',
    cloudflare_pass Scenario.with_nulls = Ok body'
    /\ cloudflare_pass body' = Ok body'.
Proof.
  eexists. split; [reflexivity|].
  apply (cloudflare_pass_idempotent Scenario.with_nulls). reflexivity.
Defined.

Lemma cloudflare_pass_only_removes_witness :
  exists body',
    cloudflare_pass Scenario.with_nulls = Ok body'
    /\ has_prop body' "user" = false
    /\ get_prop body' "model" = VStr "@cf/meta/llama-3.1-8b-instruct"
    /\ get_prop body' "stream" = VBool false.
Proof.
  eexists. split; [reflexivity|]. split; [reflexivity|].
  pose proof (cloudflare_pass_only_removes Scenario.with_nulls _ eq_refl)
    as (_ & Hkept).
  split.
  - exact (Hkept "model" ltac:(discriminate) ltac:(discriminate)).
  - exact (Hkept "stream" ltac:(discriminate) ltac:(discriminate)).
Defined.

(** A key whose entry is the empty string resolves to the first
    entry; a key with a truthy entry to that entry; a key without entry
    to the first entry. *)
Lemma model_name_comes_from_the_mapping_witness :
  resolve_model Scenario.patchy
    (normalized Sample.utils Scenario.patchy
       (VObj Plain [("model", VStr "mistral-next")]))
  = VStr "mistral-small-latest"
  /\ resolve_model Sample.mistral
       (normalized Sample.utils Sample.mistral
          (VObj Plain [("model", VStr "mistral-large")]))
     = VStr "mistral-large-latest"
  /\ resolve_model Sample.mistral
       (normalized Sample.utils Sample.mistral
          (VObj Plain [("model", VStr "unknown-model")]))
     = VStr "mistral-small-latest".
Proof.
  split; [|split].
  - exact (proj1 (model_name_comes_from_the_mapping Scenario.patchy
                    (normalized Sample.utils Scenario.patchy
                       (VObj Plain [("model", VStr "mistral-next")])))
             (VStr "") eq_refl).
  - exact (proj1 (model_name_comes_from_the_mapping Sample.mistral
                    (normalized Sample.utils Sample.mistral
                       (VObj Plain [("model", VStr "mistral-large")])))
             (VStr "mistral-large-latest") eq_refl).
  - exact (proj1 (proj2 (model_name_comes_from_the_mapping Sample.mistral
                           (normalized Sample.utils Sample.mistral
                              (VObj Plain [("model", VStr "unknown-model")]))))
             eq_refl eq_refl).
Defined.

(** The LLM names an affiliate of the table. *)
Lemma found_affiliate_is_in_the_table_witness :
  Ads.findRelevantAffiliate AdSample.table AdSample.markdown
    (AdSample.llm_says "nordvpn") "Use a VPN." AdSample.conversation 50
  = Ok (Some AdSample.nordvpn)
  /\ In AdSample.nordvpn AdSample.table.
Proof.
  split; [reflexivity|].
  exact (found_affiliate_is_in_the_table
           AdSample.table AdSample.markdown (AdSample.llm_says "nordvpn")
           "Use a VPN." AdSample.conversation 50 AdSample.nordvpn eq_refl).
Defined.

(** Content without any NSFW term, and an LLM that names the NSFW
    affiliate: it is returned. *)
Lemma nsfw_filter_does_not_restrict_the_answer_witness :
  Ads.nsfw AdSample.lovense = true
  /\ ~ In AdSample.lovense
         (Ads.eligible_affiliates AdSample.table
            ("How do I stay safe on public wifi?" ++ Ads.nl ++ "Use a VPN."))
  /\ Ads.findRelevantAffiliate AdSample.table AdSample.markdown
       (AdSample.llm_says " lovense ") "Use a VPN." AdSample.conversation 50
     = Ok (Some AdSample.lovense).
Proof.
  split; [reflexivity|]. split.
  - vm_compute. intros [H|[H|H]]; try discriminate H; exact H.
  - apply (nsfw_filter_does_not_restrict_the_answer
             AdSample.table AdSample.markdown (AdSample.llm_says " lovense ")
             "Use a VPN." AdSample.conversation 50
             ("How do I stay safe on public wifi?" ++ Ads.nl ++ "Use a VPN.")
             "lovense" (AdSample.completion " lovense ") AdSample.lovense).
    + exists AdSample.nordvpn. split; [left; reflexivity | reflexivity].
    + reflexivity.
    + vm_compute. discriminate.
    + reflexivity.
    + reflexivity.
    + discriminate.
    + vm_compute. discriminate.
    + reflexivity.
    + reflexivity.
Defined.

(** The text client answers with an error response. *)
Lemma llm_failure_falls_back_to_kofi_witness :
  Ads.findRelevantAffiliate AdSample.table AdSample.markdown
    AdSample.llm_error_response "Use a VPN." AdSample.conversation 29
  = Ok (Some AdSample.kofi)
  /\ Ads.findRelevantAffiliate AdSample.table AdSample.markdown
       AdSample.llm_error_response "Use a VPN." AdSample.conversation 30
     = Ok None.
Proof.
  assert (Hsafe : exists safe,
    In safe AdSample.table /\ Ads.nsfw safe = false)
    by (exists AdSample.nordvpn; split; [left; reflexivity | reflexivity]).
  assert (Hblank :
    trim ("How do I stay safe on public wifi?" ++ Ads.nl ++ "Use a VPN.") <> "")
    by (vm_compute; discriminate).
  split.
  - exact (llm_failure_falls_back_to_kofi
             AdSample.table AdSample.markdown AdSample.llm_error_response
             "Use a VPN." AdSample.conversation 29 _ Hsafe eq_refl Hblank
             (or_intror (ex_intro _ _ (conj eq_refl eq_refl)))).
  - exact (llm_failure_falls_back_to_kofi
             AdSample.table AdSample.markdown AdSample.llm_error_response
             "Use a VPN." AdSample.conversation 30 _ Hsafe eq_refl Hblank
             (or_intror (ex_intro _ _ (conj eq_refl eq_refl)))).
Defined.

Lemma without_luck_only_the_named_affiliate_witness :
  exists answer,
    Ads.completion_text (AdSample.completion "nordvpn") = Ok (VStr answer)
    /\ Ads.match_word answer None = Some "nordvpn".
Proof.
  destruct (without_luck_only_the_named_affiliate
              AdSample.table AdSample.markdown (AdSample.llm_says "nordvpn")
              "Use a VPN." AdSample.conversation 50 AdSample.nordvpn
              ltac:(lia) eq_refl)
    as (c & completion & answer & _ & Hgen & Htext & Hword).
  exists answer. inversion Hgen; subst completion. split; assumption.
Defined.

(** The ko-fi ad when the translator is down. *)
Lemma ad_is_generated_for_every_known_affiliate_witness :
  Ads.generateAffiliateAd AdSample.table AdSample.llm_down "kofi" "Hallo Welt"
  = Some ((Ads.nl ++ Ads.nl ++ "---" ++ Ads.nl)
          ++ Ads.base_ad_text AdSample.kofi "kofi").
Proof.
  pose proof (ad_is_generated_for_every_known_affiliate
                AdSample.table AdSample.llm_down "kofi" "Hallo Welt") as H.
  cbv zeta in H. destruct H as (_ & _ & H).
  apply (H AdSample.kofi).
  - discriminate.
  - reflexivity.
  - right. eexists. reflexivity.
Defined.

Lemma ad_text_placeholder_becomes_the_link_witness :
  Ads.base_ad_text AdSample.kofi "kofi"
  = "Powered by Pollinations.AI free text APIs. [Support our mission]("
    ++ "https://pollinations.ai/redirect/" ++ "kofi"
    ++ ") to keep AI accessible for everyone.".
Proof.
  apply (proj1 (ad_text_placeholder_becomes_the_link AdSample.kofi "kofi"
                  "Powered by Pollinations.AI free text APIs. [Support our mission]("
                  ") to keep AI accessible for everyone."
                  eq_refl eq_refl)).
  reflexivity.
Defined.

Lemma referral_link_is_read_back_witness :
  Ads.extractReferralLinkInfo
    ("Try " ++ "[" ++ "NordVPN" ++ "](https://pollinations.ai/referral/"
     ++ "nordvpn" ++ "?utm=ad" ++ ")" ++ " today.")
  = {| Ads.linkCount := 1;
       Ads.linkTexts := ["NordVPN"];
       Ads.linkTextsString := "NordVPN";
       Ads.topicsOrIds := ["nordvpn"];
       Ads.topicsOrIdsString := "nordvpn";
       Ads.affiliateIds := ["nordvpn"] |}.
Proof.
  apply (referral_link_is_read_back "Try " "NordVPN" "nordvpn" "?utm=ad"
           " today.");
    try reflexivity; discriminate.
Defined.

Lemma generated_ad_holds_no_referral_link_witness :
  Ads.generateAffiliateAd AdSample.table AdSample.llm_down "nordvpn" ""
  = Some (Ads.nl ++ Ads.nl ++ "---" ++ Ads.nl
          ++ "Browse privately with NordVPN."
          ++ " [Learn more](https://pollinations.ai/redirect/" ++ "nordvpn"
          ++ ")")
  /\ Ads.linkCount
       (Ads.extractReferralLinkInfo
          (Ads.nl ++ Ads.nl ++ "---" ++ Ads.nl
           ++ "Browse privately with NordVPN."
           ++ " [Learn more](https://pollinations.ai/redirect/" ++ "nordvpn"
           ++ ")"))
     = O.
Proof.
  destruct (generated_ad_holds_no_referral_link
              AdSample.table AdSample.llm_down "nordvpn" "" AdSample.nordvpn
              ltac:(discriminate) eq_refl eq_refl eq_refl eq_refl eq_refl
              eq_refl (or_introl eq_refl))
    as (Had & Hinfo).
  split; [exact Had|].
  exact (f_equal Ads.linkCount Hinfo).
Defined.

(** The mistral sample with a formatter that is [async] and fails: the
    request is sent, the answer is parsed, and the call rejects. *)
Lemma formatter_failure_is_returned_or_escapes_witness :
  fst (client Sample.utils (Sample.answers Sample.bare_completion)
         Scenario.deferred "req1" 1700000000123
         Sample.messages Sample.plain_options initial_world)
  = Throw (TypeError "Cannot read properties of undefined").
Proof.
  erewrite (proj2 (formatter_failure_is_returned_or_escapes
                     Sample.utils (Sample.answers Sample.bare_completion)
                     Scenario.deferred "req1" 1700000000123
                     Sample.messages Sample.plain_options initial_world
                     Sample.bare_completion _ _ _ _
                     eq_refl eq_refl eq_refl eq_refl eq_refl));
    reflexivity.
Defined.
